(** * import_external_files_OF.py: CSV ingestion into OF.External_file_staging

    A shallow embedding of the batch script
    [src/python/import_external_files_OF.py] and the properties its
    specification states about it.

    The script is a straight line of library calls, so the embedding has two
    layers:
    - the world the calls act on (two directories, one database table, the
      history of completed calls), with each library call as a primitive of a
      state-and-exception monad;
    - the script itself, written over those primitives in the order of the
      source.

    Conventions for the library calls (none of them is defined in the
    repository):
    - [pd.read_csv(path, dtype=str)] yields a frame whose cells are text or
      missing (pandas' NaN), or raises;
    - [df.rename(columns={old: new})] relabels every column labelled [old] and
      touches nothing else;
    - [df.to_sql(..., if_exists="append", index=False)] issues one INSERT per
      frame row naming the frame's labels, inside one transaction; the table
      is taken to exist;
    - [shutil.move(src, dst)] with [dst] a file path replaces [dst];
    - the database is Microsoft SQL Server (the engine URL of the script):
      its [=] and [IN] on text ignore trailing blanks whatever the collation
      and ignore the case of letters when the collation is case-insensitive
      (its default); a comparison with NULL is never true. *)

From stdpp Require Import base option list gmap strings fin_maps.

#[local] Set Warnings "-clear-no-such-hyp".

(** ** Data model *)

(** A cell of a frame or of the staging table: text, or missing.  [None] is
    pandas' NaN on the frame side and SQL NULL on the table side. *)
Abbreviation cell := (option string).
Definition NULL : cell := None.

(** A pandas DataFrame read with [dtype=str]: the column labels (duplicates
    are allowed by pandas) and the rows of cells, in file order. *)
Record DataFrame := mkFrame {
  columns : list string;
  values : list (list cell)
}.

(** A directory entry: a file [pd.read_csv] can parse, given by the frame it
    parses to, or anything else (a directory, an empty or malformed file). *)
Inductive file :=
  | Csv (df : DataFrame)
  | Unreadable.

(** The staging table: its column names and its rows (a row maps each column
    name to a cell), and whether the collation of its text columns ignores
    case, which is a setting of the database and not of the script.  Like
    SQL Server's default collation, the collations considered tell accented
    letters from plain ones. *)
Record Table := mkTable {
  tcols : list string;
  trows : list (gmap string cell);
  case_insensitive : bool
}.

(** Completed external calls, oldest first. *)
Inductive event :=
  | Inserted (df : DataFrame)      (* df.to_sql(...) returned *)
  | Moved (filename : string)      (* shutil.move(file_path, file_path2) returned *)
  | Info (msg : string)            (* logger.info(msg) *)
  | Executed (sql : string).       (* connection.execute(sql.text(sql)) returned *)

(** [source] is [folder_path], [archive] is [folder_path2] ([None] when that
    directory does not exist), [staging] is OF.External_file_staging. *)
Record World := mkWorld {
  source : gmap string file;
  archive : option (gmap string file);
  staging : Table;
  history : list event
}.

Global Instance DataFrame_eq_dec : EqDecision DataFrame.
Proof. solve_decision. Defined.
Global Instance file_eq_dec : EqDecision file.
Proof. solve_decision. Defined.
Global Instance Table_eq_dec : EqDecision Table.
Proof. solve_decision. Defined.
Global Instance event_eq_dec : EqDecision event.
Proof. solve_decision. Defined.

Definition set_staging (t : Table) (w : World) : World :=
  mkWorld (source w) (archive w) t (history w).

Definition record (e : event) (w : World) : World :=
  mkWorld (source w) (archive w) (staging w) (history w ++ [e]).

(** ** Exceptions over a state *)

Inductive error := LoadError | MoveError | UpdateError.

Inductive outcome (A : Type) :=
  | Done (a : A)
  | Raised (e : error).
Arguments Done {A} a.
Arguments Raised {A} e.

Section Exceptions.
Context (S : Type).

(** A computation runs on a state and leaves a state behind whether it
    returns or raises: Python does not undo effects when an exception
    propagates. *)
Definition M (A : Type) : Type := S → S * outcome A.

Definition ret {A} (a : A) : M A := λ s, (s, Done a).

Definition raise {A} (e : error) : M A := λ s, (s, Raised e).

Definition bind {A B} (c : M A) (k : A → M B) : M B := λ s,
  match c s with
  | (s', Done a) => k a s'
  | (s', Raised e) => (s', Raised e)
  end.

Global Instance M_ret : MRet M := λ A, ret.
Global Instance M_bind : MBind M := λ A B k c, bind c k.

(** [for x in l: body(x)] with no [try]. *)
Fixpoint for_each {A} (body : A → M unit) (l : list A) : M unit :=
  match l with
  | [] => mret tt
  | x :: l' => body x ;; for_each body l'
  end.
End Exceptions.

Arguments ret {S A} a.
Arguments raise {S A} e.
Arguments bind {S A B} c k.
Arguments for_each {S A} body l.

(** ** Library calls *)

(** [str.endswith]: some tail of [s] is [suffix]. *)
Fixpoint endswith (s suffix : string) : bool :=
  String.eqb s suffix ||
  match s with
  | EmptyString => false
  | String _ s' => endswith s' suffix
  end.

(** [pd.read_csv(file_path, dtype=str)]. *)
Definition read_csv (filename : string) : M World DataFrame := λ w,
  match source w !! filename with
  | Some (Csv df) => (w, Done df)
  | _ => raise LoadError w
  end.

(** [df.rename(columns={old: new})]. *)
Definition rename (old new : string) (df : DataFrame) : DataFrame :=
  mkFrame ((λ c, if bool_decide (c = old) then new else c) <$> columns df)
          (values df).

(** The row an [INSERT INTO t (labels) VALUES (r)] adds: the listed columns
    take the given cells, every other column of the table is NULL. *)
Definition sql_row (cols labels : list string) (r : list cell)
    : gmap string cell :=
  let given : gmap string cell := list_to_map (zip labels r) in
  list_to_map ((λ c, (c, default NULL (given !! c))) <$> cols).

(** The database side of [to_sql]: a frame without rows sends no INSERT; an
    INSERT naming a column twice, or a column the table lacks, is rejected
    and the transaction leaves the table as it was. *)
Definition insert_frame (df : DataFrame) (t : Table) : option Table :=
  if bool_decide (values df = []) then Some t
  else if bool_decide (NoDup (columns df) ∧ Forall (λ c, c ∈ tcols t) (columns df))
  then Some (mkTable (tcols t)
                     (trows t ++ (sql_row (tcols t) (columns df) <$> values df))
                     (case_insensitive t))
  else None.

(** [df.to_sql('External_file_staging', engine, schema='OF',
    if_exists="append", index=False)]. *)
Definition to_sql (df : DataFrame) : M World unit := λ w,
  match insert_frame df (staging w) with
  | Some t => (record (Inserted df) (set_staging t w), Done tt)
  | None => raise LoadError w
  end.

(** [shutil.move(file_path, file_path2)]. *)
Definition shutil_move (filename : string) : M World unit := λ w,
  match source w !! filename, archive w with
  | Some f, Some a =>
      (mkWorld (delete filename (source w)) (Some (<[filename := f]> a))
               (staging w) (history w ++ [Moved filename]), Done tt)
  | _, _ => raise MoveError w
  end.

(** [logger.info(msg)]. *)
Definition logger_info (msg : string) : M World unit := λ w,
  (record (Info msg) w, Done tt).

(** ** The cleanup statement *)

(** An [UPDATE t SET c = NULL WHERE c' IN (v1, ..., vn)] on the staging
    table, as the database reads it. *)
Record update_null := mkUpdate {
  upd_set : string;
  upd_where : string;
  upd_in : list string
}.

Definition nl : string := String (Ascii.ascii_of_nat 10) EmptyString.

Definition quoted (v : string) : string := "'" +:+ v +:+ "'".

(** The text of a statement, laid out as the script lays it out. *)
Definition sql_text (u : update_null) : string :=
  nl +:+ "    Update [EAT_Reporting_BSOL].[OF].[External_file_staging] " +:+
  nl +:+ "    SET " +:+ upd_set u +:+ " = NULL " +:+
  nl +:+ "    WHERE " +:+ upd_where u +:+ " in (" +:+
  String.concat ", " (quoted <$> upd_in u) +:+ " )" +:+
  nl +:+ "    ".

(** *** How SQL Server compares text *)

Definition blank : Ascii.ascii := Ascii.ascii_of_nat 32.

(** A string without its trailing blanks. *)
Fixpoint rstrip (s : string) : string :=
  match s with
  | EmptyString => EmptyString
  | String a s' =>
      match rstrip s' with
      | EmptyString =>
          if Ascii.eqb a blank then EmptyString else String a EmptyString
      | t => String a t
      end
  end.

(** An ASCII letter in upper case; any other character as it is. *)
Definition to_upper (a : Ascii.ascii) : Ascii.ascii :=
  let n := Ascii.nat_of_ascii a in
  if (97 <=? n) && (n <=? 122) then Ascii.ascii_of_nat (n - 32) else a.

Fixpoint upper (s : string) : string :=
  match s with
  | EmptyString => EmptyString
  | String a s' => String (to_upper a) (upper s')
  end.

(** [a = b] on text: the shorter string is padded with blanks, so trailing
    blanks do not count; under a case-insensitive collation ([ci]) the case
    of letters does not count either. *)
Definition sql_equal (ci : bool) (a b : string) : bool :=
  if ci then String.eqb (upper (rstrip a)) (upper (rstrip b))
  else String.eqb (rstrip a) (rstrip b).

(** [s IN (v1, ..., vn)]. *)
Definition sql_in (ci : bool) (s : string) (vals : list string) : bool :=
  existsb (sql_equal ci s) vals.

(** What the statement does to one row, under the collation [ci]. *)
Definition set_null_where_in (ci : bool) (u : update_null)
    (r : gmap string cell) : gmap string cell :=
  match r !! upd_where u with
  | Some (Some s) =>
      if sql_in ci s (upd_in u) then <[upd_set u := NULL]> r else r
  | _ => r
  end.

(** What it does to the table; a column the table lacks is an error. *)
Definition run_update (u : update_null) (t : Table) : option Table :=
  if bool_decide (upd_set u ∈ tcols t ∧ upd_where u ∈ tcols t)
  then Some (mkTable (tcols t)
                     (set_null_where_in (case_insensitive t) u <$> trows t)
                     (case_insensitive t))
  else None.

(** [with engine.connect() as connection:
       connection.execute(sql.text(...))]. *)
Definition connection_execute (u : update_null) : M World unit := λ w,
  match run_update u (staging w) with
  | Some t => (record (Executed (sql_text u)) (set_staging t w), Done tt)
  | None => raise UpdateError w
  end.

(** ** The script *)

Definition fields : list string :=
  ["numerator"; "denominator"; "IndicatorValue"; "lowerCI95"; "upperCI95"].

Definition sentinels : list string :=
  ["Inf"; "-Inf"; "NA"; "Null"; "NULL"; "Nan"; "NaN"; ""].

(** The string the script builds for field [i]. *)
Definition sql1 (i : string) : string :=
  nl +:+ "    Update [EAT_Reporting_BSOL].[OF].[External_file_staging] " +:+
  nl +:+ "    SET " +:+ i +:+ " = NULL " +:+
  nl +:+ "    WHERE " +:+ i +:+
  " in ('Inf', '-Inf', 'NA', 'Null', 'NULL', 'Nan', 'NaN', '' )" +:+
  nl +:+ "    ".

(** The statement that string spells (see [sql1_spells]). *)
Definition statement (i : string) : update_null := mkUpdate i i sentinels.

(** The three renames of the loop body, in source order. *)
Definition rename_ids (df : DataFrame) : DataFrame :=
  let df := rename "Unnamed: 0" "Column_0" df in
  let df := rename "ValueID" "Column_0" df in
  let df := rename "ID" "Column_0" df in
  df.

(** The Record Loader: the part of the loop body from [pd.read_csv] to
    [df.to_sql]. *)
Definition load_file (filename : string) : M World unit :=
  df ← read_csv filename;
  let df := rename_ids df in
  to_sql df.

(** Body of [for filename in os.listdir(folder_path)]: the Loader, then the
    Archiver. *)
Definition import_file (filename : string) : M World unit :=
  if endswith filename ".csv" then
    load_file filename;;
    shutil_move filename
  else mret tt.

(** Body of [for i in fields]. *)
Definition clean_field (i : string) : M World unit :=
  logger_info ("Cleaning " +:+ i +:+ " column.");;
  connection_execute (statement i).

Definition file_loop (listing : list string) : M World unit :=
  for_each import_file listing.

Definition cleaner : M World unit :=
  for_each clean_field fields.

(** The whole script; [listing] is what [os.listdir(folder_path)] returned. *)
Definition script (listing : list string) : M World unit :=
  file_loop listing;;
  cleaner.

(** [os.listdir] reports every entry of the directory once, in an order of
    its own choosing. *)
Definition os_listdir (w : World) (listing : list string) : Prop :=
  NoDup listing ∧ list_to_set listing = dom (source w).

(** ** The spec's words, for comparison *)

(** The rename map of the spec: the three aliases go to the canonical name,
    every other label is kept. *)
Definition id_aliases : list string := ["Unnamed: 0"; "ValueID"; "ID"].

Definition canonical (c : string) : string :=
  if bool_decide (c ∈ id_aliases) then "Column_0" else c.

(** ** Sample inputs *)

Definition staging_columns : list string :=
  ["Column_0"; "numerator"; "denominator"; "IndicatorValue";
   "lowerCI95"; "upperCI95"].

Definition demo_frame : DataFrame :=
  mkFrame ["ID"; "numerator"; "IndicatorValue"]
          [[Some "7"; Some "NaN"; Some "0.5"]].

(** A header row and nothing else. *)
Definition header_only : DataFrame :=
  mkFrame ["ID"; "numerator"; "denominator"] [].

(** Two of the three aliases in one file. *)
Definition two_ids : DataFrame :=
  mkFrame ["ID"; "ValueID"; "numerator"] [[Some "1"; Some "2"; Some "3"]].

Definition demo_table : Table := mkTable staging_columns [] true.

(** One stored row with a sentinel, a plain number, an empty string and a
    NULL among its target columns. *)
Definition dirty_table : Table :=
  mkTable staging_columns
    [ {[ "Column_0" := Some "1"; "numerator" := Some "NaN";
         "denominator" := Some "0"; "IndicatorValue" := Some "0.5";
         "lowerCI95" := Some ""; "upperCI95" := NULL ]} ]
    true.

(** A case-sensitive table whose row holds, in target columns, a blank, a
    sentinel followed by blanks, a sentinel in lower case and a number. *)
Definition blank_table : Table :=
  mkTable staging_columns
    [ {[ "Column_0" := Some "1"; "numerator" := Some " ";
         "denominator" := Some "NA  "; "IndicatorValue" := Some "nan";
         "lowerCI95" := Some "0.5"; "upperCI95" := Some "Inf" ]} ]
    false.

(** The same row in a table with a case-insensitive collation. *)
Definition blank_table_ci : Table :=
  mkTable staging_columns (trows blank_table) true.

(** A table without the [denominator] column. *)
Definition narrow_table : Table :=
  mkTable ["Column_0"; "numerator"]
    [ {[ "Column_0" := Some "1"; "numerator" := Some "NA" ]} ]
    true.

Definition demo_world : World :=
  mkWorld {["a.csv" := Csv demo_frame; "notes.txt" := Unreadable]}
          (Some ∅) demo_table [].

Definition dirty_world : World := mkWorld ∅ (Some ∅) dirty_table [].

Definition blank_world : World := mkWorld ∅ (Some ∅) blank_table [].

Definition blank_world_ci : World := mkWorld ∅ (Some ∅) blank_table_ci [].

Definition no_csv_world : World :=
  mkWorld {["notes.txt" := Unreadable; "A.CSV" := Csv demo_frame]}
          (Some ∅) dirty_table [].

Definition narrow_world : World :=
  mkWorld {["notes.txt" := Unreadable]} (Some ∅) narrow_table [].

Definition header_only_world : World :=
  mkWorld {["empty.csv" := Csv header_only]} (Some ∅) dirty_table [].

Definition two_ids_world : World :=
  mkWorld {["both.csv" := Csv two_ids]} (Some ∅) dirty_table [].

(** A broken file between two good ones. *)
Definition broken_world : World :=
  mkWorld {["a.csv" := Csv demo_frame; "b.csv" := Unreadable;
            "c.csv" := Csv demo_frame]}
          (Some ∅) demo_table [].

(** The archive directory is missing. *)
Definition no_archive_world : World :=
  mkWorld {["a.csv" := Csv demo_frame; "c.csv" := Csv demo_frame]}
          None demo_table [].

(** ** Vocabulary of the statements *)

(** What the cleanup statement for a column does to the cell it finds there
    (see [statement_alter]), under the collation [ci]. *)
Definition scrub_cell (ci : bool) (x : cell) : cell :=
  match x with
  | Some s => if sql_in ci s sentinels then NULL else Some s
  | None => NULL
  end.

(** The text [s] is, for the database, one of the sentinels: it is one of
    them once its trailing blanks are removed and, under a case-insensitive
    collation, once letters are put in upper case on both sides. *)
Definition matches_sentinel (ci : bool) (s : string) : Prop :=
  if ci then upper (rstrip s) ∈ upper <$> sentinels
  else rstrip s ∈ sentinels.

(** A row after the statements for the columns [cs], run left to right. *)
Definition clean_row (ci : bool) (cs : list string) (r : gmap string cell)
    : gmap string cell :=
  foldl (λ r i, set_null_where_in ci (statement i) r) r cs.

(** The statements of [cs] that run before the first one the table
    rejects. *)
Fixpoint runnable (cols cs : list string) : list string :=
  match cs with
  | [] => []
  | i :: cs' => if bool_decide (i ∈ cols) then i :: runnable cols cs' else []
  end.

(** The two events one pass of [clean_field] leaves in the history. *)
Definition cleaning_events (i : string) : list event :=
  [Info ("Cleaning " +:+ i +:+ " column."); Executed (sql1 i)].

(** The history one run of the cleanup loop over [cs] adds: a statement the
    table rejects is announced by its log line and ends the loop. *)
Fixpoint cleaner_history (cols cs : list string) : list event :=
  match cs with
  | [] => []
  | i :: cs' =>
      if bool_decide (i ∈ cols) then cleaning_events i ++ cleaner_history cols cs'
      else [Info ("Cleaning " +:+ i +:+ " column.")]
  end.

(** The file stored under the name [F] in the archive directory, if any. *)
Definition archived (w : World) (F : string) : option file :=
  archive w ≫= λ a, a !! F.

(** How many columns of a frame carry the label [c]. *)
Definition count_label (c : string) (df : DataFrame) : nat :=
  length (filter (λ x, x = c) (columns df)).

(** C4 in the spec's words, first half: after the renames the frame has a
    single "Column_0" column. *)
Definition single_canonical_column (df : DataFrame) : Prop :=
  count_label "Column_0" (rename_ids df) = 1.

(** Events of the cleanup pass. *)
Definition is_cleanup_event (e : event) : bool :=
  match e with
  | Info _ | Executed _ => true
  | Inserted _ | Moved _ => false
  end.

(** In the history [h], every move of a file comes directly after the insert
    of the frame read from that file, as it stood in the directory [src]. *)
Definition moves_follow_loads (src : gmap string file) (h : list event) : Prop :=
  ∀ pre F post,
    h = pre ++ Moved F :: post →
    ∃ pre' df,
      pre = pre' ++ [Inserted (rename_ids df)] ∧ src !! F = Some (Csv df).

(** What the file loop may do between two worlds: the source directory only
    loses files, and the history grows by events in which moves follow
    loads, the archive changes only under moved names, and no cleanup event
    occurs. *)
Definition file_loop_trace (w w' : World) : Prop :=
  (∀ F f, source w' !! F = Some f → source w !! F = Some f) ∧
  ∃ h,
    history w' = history w ++ h ∧
    moves_follow_loads (source w) h ∧
    (∀ F, Moved F ∉ h → archived w' F = archived w F) ∧
    Forall (λ e, is_cleanup_event e = false) h.

(** A table with rows, and one good file to load into it. *)
Definition stocked_world : World :=
  mkWorld {["a.csv" := Csv demo_frame]} (Some ∅) dirty_table [].

(** ** Vocabulary of the further properties *)

(** The renames to "Column_0" of the labels [olds], one after the other. *)
Definition rename_all (olds : list string) (df : DataFrame) : DataFrame :=
  foldl (λ df old, rename old "Column_0" df) df olds.

(** A file the Loader accepts into the table [t]: it parses, and the labels
    of its frame, once renamed, are distinct columns of [t]. *)
Definition loadable (t : Table) (f : file) : Prop :=
  match f with
  | Csv df =>
      NoDup (columns (rename_ids df)) ∧
      Forall (λ c, c ∈ tcols t) (columns (rename_ids df))
  | Unreadable => False
  end.

Global Instance loadable_dec t f : Decision (loadable t f).
Proof. destruct f; simpl; apply _. Defined.

(** Every stored row has a cell for each column of the table and for nothing
    else. *)
Definition well_formed (t : Table) : Prop :=
  Forall (λ r : gmap string cell, dom r = list_to_set (tcols t)) (trows t).

(** The rows the Loader builds for the table columns [cols] from the file
    stored under [F] in [src]. *)
Definition rows_of (cols : list string) (src : gmap string file) (F : string)
    : list (gmap string cell) :=
  match src !! F with
  | Some (Csv df) => sql_row cols (columns (rename_ids df)) <$> values df
  | _ => []
  end.

(** The rows the file loop builds when it goes through [l] without raising:
    those of the ".csv" names, in the order of [l]. *)
Definition loaded_rows (cols : list string) (src : gmap string file)
    (l : list string) : list (gmap string cell) :=
  l ≫= λ F, if endswith F ".csv" then rows_of cols src F else [].

(** In the history [h], every executed statement is the cleanup statement of
    one of the five fields and comes directly after that field's log line. *)
Definition statements_follow_log_lines (h : list event) : Prop :=
  ∀ pre q post,
    h = pre ++ Executed q :: post →
    ∃ pre' i,
      i ∈ fields ∧ q = sql1 i ∧
      pre = pre' ++ [Info ("Cleaning " +:+ i +:+ " column.")].

(** The texts of the statements executed in the history [h], oldest first. *)
Definition executed (h : list event) : list string :=
  omap (λ e, match e with Executed q => Some q | _ => None end) h.

(** A frame without an identifying column. *)
Definition plain_frame : DataFrame :=
  mkFrame ["numerator"; "denominator"] [[Some "1"; Some "2"]].

(** Two good files and a bystander. *)
Definition two_files_world : World :=
  mkWorld {["a.csv" := Csv demo_frame; "c.csv" := Csv plain_frame;
            "notes.txt" := Unreadable]}
          (Some ∅) dirty_table [].

(** * Properties *)

(** ** Small checks *)

Example endswith_csv : endswith "a.csv" ".csv" = true.
Proof. reflexivity. Qed.

Example endswith_upper : endswith "A.CSV" ".csv" = false.
Proof. reflexivity. Qed.

Example endswith_short : endswith "csv" ".csv" = false.
Proof. reflexivity. Qed.

Lemma sql1_spells i : sql_text (statement i) = sql1 i.
Proof. reflexivity. Qed.

(** ** Sequencing and loops *)

Section Loops.
Context {S A : Type}.
Implicit Types (body : A → M S unit) (l : list A) (s : S).

Lemma bind_run {B C} (c : M S B) (k : B → M S C) s :
  (c ≫= k) s =
  match c s with
  | (s', Done a) => k a s'
  | (s', Raised e) => (s', Raised e)
  end.
Proof. reflexivity. Qed.

Lemma for_each_cons body x l s :
  for_each body (x :: l) s =
  match body x s with
  | (s', Done _) => for_each body l s'
  | (s', Raised e) => (s', Raised e)
  end.
Proof. reflexivity. Qed.

Lemma for_each_app body l1 l2 s :
  for_each body (l1 ++ l2) s =
  match for_each body l1 s with
  | (s', Done _) => for_each body l2 s'
  | (s', Raised e) => (s', Raised e)
  end.
Proof.
  revert s. induction l1 as [|x l1 IH]; intros s; [done|].
  rewrite <- app_comm_cons, !for_each_cons.
  destruct (body x s) as [s' [[]|e]]; [apply IH | done].
Qed.

(** An exception in one iteration ends the loop there. *)
Lemma for_each_abort body l1 x l2 s s1 s2 e :
  for_each body l1 s = (s1, Done tt) →
  body x s1 = (s2, Raised e) →
  for_each body (l1 ++ x :: l2) s = (s2, Raised e).
Proof.
  intros H1 Hx. rewrite for_each_app, H1, for_each_cons, Hx. done.
Qed.

(** A loop that raises does so in some iteration, reached through
    iterations that returned. *)
Lemma for_each_raised body l s s2 e :
  for_each body l s = (s2, Raised e) →
  ∃ l1 x l2 s1,
    l = l1 ++ x :: l2 ∧
    for_each body l1 s = (s1, Done tt) ∧
    body x s1 = (s2, Raised e).
Proof.
  revert s. induction l as [|x l IH]; intros s; [done|].
  rewrite for_each_cons.
  destruct (body x s) as [s' [[]|e']] eqn:Hx.
  - intros (l1 & y & l2 & s1 & -> & H1 & Hy)%IH.
    exists (x :: l1), y, l2, s1. by rewrite for_each_cons, Hx.
  - intros [= <- <-]. by exists [], x, l, s.
Qed.

(** A relation between states that every iteration respects, whatever its
    outcome, holds across the loop. *)
Lemma for_each_rel (R : S → S → Prop) body l s :
  Reflexive R → Transitive R →
  (∀ x s, x ∈ l → R s (body x s).1) →
  R s (for_each body l s).1.
Proof.
  intros Hrefl Htrans. revert s.
  induction l as [|x l IH]; intros s Hbody; [apply Hrefl|].
  rewrite for_each_cons. pose proof (Hbody x s (list_elem_of_here _ _)) as Hx.
  destruct (body x s) as [s' [[]|e]]; simpl in *; [|done].
  etrans; [exact Hx|]. apply IH. intros y s0 Hy. apply Hbody. by right.
Qed.
End Loops.

(** ** The cleanup statement, row by row *)

Lemma sql_equal_refl ci s : sql_equal ci s s = true.
Proof. unfold sql_equal. destruct ci; apply String.eqb_refl. Qed.

(** A value of the list is in the list for the database too. *)
Lemma sql_in_elem ci s vals : s ∈ vals → sql_in ci s vals = true.
Proof.
  intros Hin. unfold sql_in. apply existsb_exists. exists s.
  split; [by apply list_elem_of_In | apply sql_equal_refl].
Qed.

Lemma rstrip_blank s : rstrip (s +:+ " ") = rstrip s.
Proof.
  induction s as [|a s IH]; [done|].
  change (String a s +:+ " ") with (String a (s +:+ " ")).
  cbn [rstrip]. by rewrite IH.
Qed.

(** Blanks at the end of either side do not count. *)
Lemma sql_equal_blank ci s v :
  sql_equal ci (s +:+ " ") v = sql_equal ci s v ∧
  sql_equal ci s (v +:+ " ") = sql_equal ci s v.
Proof. unfold sql_equal. by rewrite !rstrip_blank. Qed.

Lemma statement_alter ci i r :
  set_null_where_in ci (statement i) r = alter (scrub_cell ci) i r.
Proof.
  unfold set_null_where_in, statement, scrub_cell.
  cbn [upd_where upd_set upd_in]. apply map_eq; intros j.
  rewrite lookup_alter. destruct (decide (i = j)) as [<-|Hne].
  - destruct (r !! i) as [[s|]|] eqn:Hi; cbn [fmap option_fmap option_map];
      [|done..].
    destruct (sql_in ci s sentinels); [by rewrite lookup_insert_eq | done].
  - destruct (r !! i) as [[s|]|]; [|done..].
    destruct (sql_in ci s sentinels); [by rewrite lookup_insert_ne | done].
Qed.

Lemma scrub_cell_idemp ci x :
  scrub_cell ci (scrub_cell ci x) = scrub_cell ci x.
Proof.
  destruct x as [s|]; [|done]. unfold scrub_cell.
  destruct (sql_in ci s sentinels) eqn:Hs; [done|]. by rewrite Hs.
Qed.

Lemma clean_row_lookup ci cs r c :
  clean_row ci cs r !! c =
  if bool_decide (c ∈ cs) then scrub_cell ci <$> r !! c else r !! c.
Proof.
  unfold clean_row. revert r.
  induction cs as [|i cs IH]; intros r; simpl; [done|].
  rewrite IH, statement_alter, lookup_alter.
  destruct (decide (i = c)) as [->|Hne].
  - rewrite (bool_decide_true (c ∈ c :: cs)) by set_solver.
    case_bool_decide; [|done].
    destruct (r !! c) as [x|]; simpl; [|done]. by rewrite scrub_cell_idemp.
  - case_bool_decide as Hc.
    + by rewrite bool_decide_true by set_solver.
    + by rewrite bool_decide_false by set_solver.
Qed.

Lemma clean_row_idemp ci cs r :
  clean_row ci cs (clean_row ci cs r) = clean_row ci cs r.
Proof.
  apply map_eq; intros c. rewrite !clean_row_lookup.
  case_bool_decide; [|done].
  destruct (r !! c) as [x|]; simpl; [|done]. by rewrite scrub_cell_idemp.
Qed.

(** ** The cleanup loop *)

Lemma table_eq t1 t2 :
  tcols t1 = tcols t2 → trows t1 = trows t2 →
  case_insensitive t1 = case_insensitive t2 → t1 = t2.
Proof. destruct t1, t2; simpl; congruence. Qed.

Lemma run_update_statement i t :
  run_update (statement i) t =
  if bool_decide (i ∈ tcols t)
  then Some (mkTable (tcols t)
               (set_null_where_in (case_insensitive t) (statement i)
                  <$> trows t)
               (case_insensitive t))
  else None.
Proof.
  unfold run_update; simpl.
  case_bool_decide as H1; case_bool_decide as H2; naive_solver.
Qed.

Lemma clean_field_run i w :
  clean_field i w =
  if bool_decide (i ∈ tcols (staging w))
  then (mkWorld (source w) (archive w)
          (mkTable (tcols (staging w))
                   (set_null_where_in (case_insensitive (staging w))
                      (statement i) <$> trows (staging w))
                   (case_insensitive (staging w)))
          (history w ++ cleaning_events i), Done tt)
  else (record (Info ("Cleaning " +:+ i +:+ " column.")) w, Raised UpdateError).
Proof.
  unfold clean_field. rewrite bind_run. unfold logger_info, connection_execute.
  simpl. rewrite run_update_statement.
  case_bool_decide; [|done].
  unfold record, set_staging; simpl. by rewrite <- app_assoc.
Qed.

Lemma clean_row_nil ci (rows : list (gmap string cell)) :
  clean_row ci [] <$> rows = rows.
Proof. transitivity (id <$> rows); [by apply list_fmap_ext | apply list_fmap_id]. Qed.

(** The cleanup loop does not change the collation. *)
Lemma clean_loop_collation cs w :
  case_insensitive (staging (for_each clean_field cs w).1) =
  case_insensitive (staging w).
Proof.
  apply (for_each_rel
           (λ w w', case_insensitive (staging w') =
                    case_insensitive (staging w))).
  - by intros ?.
  - intros w1 w2 w3 H12 H23. congruence.
  - intros i w0 _. rewrite clean_field_run. by case_bool_decide.
Qed.

(** What the loop over [cs] leaves behind, whether it finishes or not. *)
Lemma clean_loop_run cs w :
  let cols := tcols (staging w) in
  let w' := (for_each clean_field cs w).1 in
  source w' = source w ∧ archive w' = archive w ∧
  tcols (staging w') = cols ∧
  trows (staging w') =
    clean_row (case_insensitive (staging w)) (runnable cols cs)
      <$> trows (staging w) ∧
  history w' = history w ++ cleaner_history cols cs ∧
  (for_each clean_field cs w).2 =
    if bool_decide (Forall (λ i, i ∈ cols) cs) then Done tt
    else Raised UpdateError.
Proof.
  revert w. induction cs as [|i cs IH]; intros w cols w'; subst cols w'.
  { cbn [runnable cleaner_history for_each]. unfold mret, M_ret, ret; simpl.
    by rewrite app_nil_r, clean_row_nil. }
  cbn [runnable cleaner_history]. rewrite for_each_cons, clean_field_run.
  case_bool_decide as Hi.
  - match goal with |- context [for_each clean_field cs ?w1] =>
      destruct (IH w1) as (Hs & Ha & Hc & Hr & Hh & Ho) end.
    cbn [source archive staging history tcols trows case_insensitive]
      in Hs, Ha, Hc, Hr, Hh, Ho.
    rewrite Hs, Ha, Hc, Hr, Hh, Ho.
    repeat split; rewrite <- ?list_fmap_compose, <- ?app_assoc; try done.
    assert (Forall (λ j, j ∈ tcols (staging w)) (i :: cs) ↔
            Forall (λ j, j ∈ tcols (staging w)) cs) as Hiff
      by (rewrite Forall_cons; naive_solver).
    by rewrite (bool_decide_ext _ _ Hiff).
  - simpl. rewrite clean_row_nil. repeat split.
    rewrite bool_decide_false; [done|]. by intros [? _]%Forall_cons.
Qed.

Lemma runnable_all cols cs :
  Forall (λ i, i ∈ cols) cs → runnable cols cs = cs.
Proof.
  induction 1 as [|i cs Hi _ IH]; simpl; [done|].
  by rewrite bool_decide_true, IH.
Qed.

Lemma cleaner_history_all cols cs :
  Forall (λ i, i ∈ cols) cs → cleaner_history cols cs = cs ≫= cleaning_events.
Proof.
  induction 1 as [|i cs Hi _ IH]; simpl; [done|].
  by rewrite bool_decide_true, IH.
Qed.

(** The facts of [clean_loop_run] about one run of the loop. *)
Tactic Notation "cleanup_facts" constr(cs) constr(w)
    "as" simple_intropattern(pat) :=
  let H := fresh in
  pose proof (clean_loop_run cs w) as H; cbv zeta in H; destruct H as pat.

(** ** C1 *)

Lemma sql_in_matches ci s :
  sql_in ci s sentinels = true ↔ matches_sentinel ci s.
Proof.
  unfold sql_in, matches_sentinel. rewrite existsb_exists. split.
  - intros (v & Hin & Heq). unfold sql_equal in Heq.
    apply list_elem_of_In in Hin. unfold sentinels in Hin.
    rewrite !elem_of_cons, elem_of_nil in Hin.
    destruct ci; apply String.eqb_eq in Heq; rewrite Heq;
      destruct_or!; subst v; try done;
      apply (bool_decide_unpack _); vm_compute; exact I.
  - destruct ci; intros Hin.
    + apply list_elem_of_fmap in Hin as (v & Heq & Hin). exists v.
      split; [by apply list_elem_of_In|]. unfold sql_equal.
      apply String.eqb_eq. rewrite Heq. f_equal.
      unfold sentinels in Hin. rewrite !elem_of_cons, elem_of_nil in Hin.
      destruct_or!; subst v; done.
    + exists (rstrip s). split; [by apply list_elem_of_In|]. unfold sql_equal.
      apply String.eqb_eq.
      unfold sentinels in Hin. rewrite !elem_of_cons, elem_of_nil in Hin.
      destruct_or!; rewrite Hin; done.
Qed.

(** C1, as the code has it. When the staging table has the five target
    columns, the Sentinel Cleaner runs to the end, keeps every row in place,
    and for every row, every target column and every text [s] that row holds
    there: the cell is NULL afterwards when [s] is one of the eight sentinel
    strings, and more generally when the database's comparison equates [s]
    with one of them (trailing blanks do not count, nor does the case of
    letters under a case-insensitive collation); it still holds [s] when the
    comparison equates [s] with none of them. *)
Theorem C1_matching_cells_nulled_others_kept (w : World) :
  Forall (λ i, i ∈ tcols (staging w)) fields →
  ∃ w',
    cleaner w = (w', Done tt) ∧
    length (trows (staging w')) = length (trows (staging w)) ∧
    ∀ k r col s,
      trows (staging w) !! k = Some r →
      col ∈ fields →
      r !! col = Some (Some s) →
      ∃ r',
        trows (staging w') !! k = Some r' ∧
        (s ∈ sentinels → r' !! col = Some NULL) ∧
        (matches_sentinel (case_insensitive (staging w)) s →
         r' !! col = Some NULL) ∧
        (¬ matches_sentinel (case_insensitive (staging w)) s →
         r' !! col = Some (Some s)).
Proof.
  intros Hcols. unfold cleaner.
  cleanup_facts fields w as (_ & _ & _ & Hr & _ & Ho).
  rewrite bool_decide_true in Ho by done.
  rewrite runnable_all in Hr by done.
  destruct (for_each clean_field fields w) as [w' o].
  cbn [fst snd] in Hr, Ho. subst o.
  exists w'. split; [done|]. rewrite Hr. split; [by rewrite length_fmap|].
  intros k r col s Hk Hcol Hs. eexists.
  split; [by rewrite list_lookup_fmap, Hk|].
  rewrite clean_row_lookup, (bool_decide_true (col ∈ fields)), Hs by done.
  unfold scrub_cell. cbn [fmap option_fmap option_map].
  split_and!.
  - intros Hin. by rewrite sql_in_elem.
  - intros Hm%sql_in_matches. by rewrite Hm.
  - intros Hm. destruct (sql_in _ s sentinels) eqn:E; [|done].
    by apply sql_in_matches in E.
Qed.

Lemma C1_matching_cells_nulled_others_kept_witness :
  Forall (λ i, i ∈ tcols (staging dirty_world)) fields ∧
  ∃ w',
    cleaner dirty_world = (w', Done tt) ∧
    length (trows (staging w')) = length (trows (staging dirty_world)) ∧
    ∀ k r col s,
      trows (staging dirty_world) !! k = Some r →
      col ∈ fields →
      r !! col = Some (Some s) →
      ∃ r',
        trows (staging w') !! k = Some r' ∧
        (s ∈ sentinels → r' !! col = Some NULL) ∧
        (matches_sentinel (case_insensitive (staging dirty_world)) s →
         r' !! col = Some NULL) ∧
        (¬ matches_sentinel (case_insensitive (staging dirty_world)) s →
         r' !! col = Some (Some s)).
Proof.
  assert (Forall (λ i, i ∈ tcols (staging dirty_world)) fields) as H
    by (apply (bool_decide_unpack _); vm_compute; exact I).
  split; [exact H | exact (C1_matching_cells_nulled_others_kept dirty_world H)].
Defined.

(** The claim as the spec words it fails on a blank: a numerator cell that
    holds " ", which is none of the eight sentinel strings, is NULL after the
    Sentinel Cleaner has run, because SQL Server compares " " and '' as
    equal, whatever the collation. *)
Lemma C1_blank_cell_is_nulled :
  (" " ∉ sentinels) ∧
  (λ r, r !! "numerator") <$> trows (staging blank_world)
    = [Some (Some " ")] ∧
  (cleaner blank_world).2 = Done tt ∧
  (λ r, r !! "numerator") <$> trows (staging (cleaner blank_world).1)
    = [Some NULL].
Proof.
  split_and!; [|vm_compute; reflexivity..].
  unfold sentinels. rewrite !elem_of_cons, elem_of_nil. naive_solver.
Qed.

(** The spec's scenario: numerator "NaN" becomes NULL, "0" and "0.5" stay. *)
Example cleaner_on_dirty_row :
  (λ r, (r !! "numerator", r !! "denominator", r !! "IndicatorValue",
         r !! "lowerCI95", r !! "upperCI95", r !! "Column_0"))
    <$> trows (staging (cleaner dirty_world).1)
  = [(Some NULL, Some (Some "0"), Some (Some "0.5"),
      Some NULL, Some NULL, Some (Some "1"))].
Proof. vm_compute. reflexivity. Qed.

(** The same row under a case-sensitive and a case-insensitive collation:
    " " and "NA  " go in both, "nan" only in the second, "0.5" in neither. *)
Example cleaner_on_blank_row :
  (λ r, (r !! "numerator", r !! "denominator", r !! "IndicatorValue",
         r !! "lowerCI95", r !! "upperCI95"))
    <$> trows (staging (cleaner blank_world).1)
  = [(Some NULL, Some NULL, Some (Some "nan"), Some (Some "0.5"), Some NULL)]
  ∧
  (λ r, (r !! "numerator", r !! "denominator", r !! "IndicatorValue",
         r !! "lowerCI95", r !! "upperCI95"))
    <$> trows (staging (cleaner blank_world_ci).1)
  = [(Some NULL, Some NULL, Some NULL, Some (Some "0.5"), Some NULL)].
Proof. split; vm_compute; reflexivity. Qed.

(** ** C5 *)

(** C5. The Sentinel Cleaner is idempotent on the staging table: from any
    world, running the cleanup pass a second time right after the first
    leaves exactly the table the first pass left (also when the pass stops
    at a column the table lacks). *)
Theorem C5_cleaner_idempotent (w : World) :
  staging (cleaner (cleaner w).1).1 = staging (cleaner w).1.
Proof.
  unfold cleaner.
  cleanup_facts fields w as (_ & _ & Hc1 & Hr1 & _ & _).
  cleanup_facts fields (for_each clean_field fields w).1
    as (_ & _ & Hc2 & Hr2 & _ & _).
  apply table_eq; [congruence| |by rewrite !clean_loop_collation].
  rewrite Hr2, Hc1, Hr1, clean_loop_collation, <- list_fmap_compose.
  apply list_fmap_ext; intros _ r _. apply clean_row_idemp.
Qed.

Example cleaner_twice_on_narrow_table :
  staging (cleaner (cleaner narrow_world).1).1 = staging (cleaner narrow_world).1
  ∧ (cleaner narrow_world).2 = Raised UpdateError.
Proof. split; vm_compute; reflexivity. Qed.

(** ** One file: the Loader and the Archiver *)

Lemma load_file_run F w :
  load_file F w =
  match source w !! F with
  | Some (Csv df) =>
      match insert_frame (rename_ids df) (staging w) with
      | Some t =>
          (mkWorld (source w) (archive w) t
                   (history w ++ [Inserted (rename_ids df)]), Done tt)
      | None => (w, Raised LoadError)
      end
  | _ => (w, Raised LoadError)
  end.
Proof.
  unfold load_file. rewrite bind_run. unfold read_csv, to_sql.
  destruct (source w !! F) as [[df|]|]; [|done..].
  by destruct (insert_frame (rename_ids df) (staging w)).
Qed.

(** A load that raises leaves the world as it found it, and what it raises
    is a LoadError. *)
Lemma load_file_raised F w w' e :
  load_file F w = (w', Raised e) → w' = w ∧ e = LoadError.
Proof.
  rewrite load_file_run.
  destruct (source w !! F) as [[df|]|]; [|by intros [= <- <-]..].
  destruct (insert_frame (rename_ids df) (staging w)); [done|].
  by intros [= <- <-].
Qed.

Lemma load_file_done F w w' :
  load_file F w = (w', Done tt) →
  ∃ df t,
    source w !! F = Some (Csv df) ∧
    insert_frame (rename_ids df) (staging w) = Some t ∧
    w' = mkWorld (source w) (archive w) t
                 (history w ++ [Inserted (rename_ids df)]).
Proof.
  rewrite load_file_run.
  destruct (source w !! F) as [[df|]|]; [|done..].
  destruct (insert_frame (rename_ids df) (staging w)) as [t|] eqn:Ht; [|done].
  intros [= <-]. by exists df, t.
Qed.

Lemma import_file_other F w :
  endswith F ".csv" = false → import_file F w = (w, Done tt).
Proof. unfold import_file. by intros ->. Qed.

Lemma import_file_csv F w :
  endswith F ".csv" = true →
  import_file F w =
  match load_file F w with
  | (w1, Done _) => shutil_move F w1
  | (w1, Raised e) => (w1, Raised e)
  end.
Proof. unfold import_file. intros ->. by rewrite bind_run. Qed.

(** The three ways one iteration over a ".csv" name can end. *)
Lemma import_file_cases F w :
  endswith F ".csv" = true →
  (import_file F w = (w, Raised LoadError) ∧
   load_file F w = (w, Raised LoadError))
  ∨ (∃ df t,
       source w !! F = Some (Csv df) ∧
       insert_frame (rename_ids df) (staging w) = Some t ∧
       archive w = None ∧
       import_file F w =
         (mkWorld (source w) None t
                  (history w ++ [Inserted (rename_ids df)]), Raised MoveError))
  ∨ (∃ df t a,
       source w !! F = Some (Csv df) ∧
       insert_frame (rename_ids df) (staging w) = Some t ∧
       archive w = Some a ∧
       import_file F w =
         (mkWorld (delete F (source w)) (Some (<[F := Csv df]> a)) t
                  (history w ++ [Inserted (rename_ids df); Moved F]), Done tt)).
Proof.
  intros Hcsv. rewrite (import_file_csv _ _ Hcsv).
  destruct (load_file F w) as [w1 [[]|e]] eqn:Hload.
  - apply load_file_done in Hload as (df & t & Hsrc & Hins & ->).
    unfold shutil_move; simpl. rewrite Hsrc.
    destruct (archive w) as [a|] eqn:Ha.
    + right; right. exists df, t, a. by rewrite <- app_assoc.
    + right; left. by exists df, t.
  - apply load_file_raised in Hload as [-> ->]. by left.
Qed.

Lemma rename_ids_values df : values (rename_ids df) = values df.
Proof. reflexivity. Qed.

(** ** C10 *)

(** C10. A ".csv" file of the source directory that holds a header row and no
    data row is processed successfully when the archive directory exists: the
    iteration returns, the staging table is exactly what it was (nothing is
    appended), and the file has left the source directory for the archive. *)
Theorem C10_header_only_file_is_archived (F : string) (w : World)
    (df : DataFrame) (a : gmap string file) :
  endswith F ".csv" = true →
  source w !! F = Some (Csv df) →
  values df = [] →
  archive w = Some a →
  ∃ w',
    import_file F w = (w', Done tt) ∧
    staging w' = staging w ∧
    source w' !! F = None ∧
    archive w' = Some (<[F := Csv df]> a) ∧
    history w' = history w ++ [Inserted (rename_ids df); Moved F].
Proof.
  intros Hcsv Hsrc Hvals Ha.
  destruct (import_file_cases F w Hcsv)
    as [[_ Hload]|[(df' & t & Hsrc' & Hins & Ha' & _)
                  |(df' & t & a' & Hsrc' & Hins & Ha' & Hrun)]].
  - rewrite load_file_run, Hsrc in Hload. unfold insert_frame in Hload.
    rewrite rename_ids_values, Hvals, bool_decide_true in Hload by done.
    done.
  - congruence.
  - assert (df' = df) as -> by congruence.
    assert (a' = a) as -> by congruence.
    unfold insert_frame in Hins.
    rewrite rename_ids_values, Hvals, bool_decide_true in Hins by done.
    injection Hins as <-.
    eexists. split; [exact Hrun|]. simpl.
    by rewrite lookup_delete_eq.
Qed.

Lemma C10_header_only_file_is_archived_witness :
  ∃ w',
    import_file "empty.csv" header_only_world = (w', Done tt) ∧
    staging w' = staging header_only_world ∧
    source w' !! "empty.csv" = None ∧
    archive w' = Some (<["empty.csv" := Csv header_only]> ∅) ∧
    history w' =
      history header_only_world ++
      [Inserted (rename_ids header_only); Moved "empty.csv"].
Proof.
  apply (C10_header_only_file_is_archived
           "empty.csv" header_only_world header_only ∅);
    vm_compute; reflexivity.
Defined.

(** ** C9 *)

Lemma file_loop_no_csv listing w :
  Forall (λ F, endswith F ".csv" = false) listing →
  file_loop listing w = (w, Done tt).
Proof.
  unfold file_loop. induction 1 as [|F l HF _ IH]; [done|].
  by rewrite for_each_cons, import_file_other.
Qed.

Lemma script_run listing w :
  script listing w =
  match file_loop listing w with
  | (w1, Done _) => cleaner w1
  | (w1, Raised e) => (w1, Raised e)
  end.
Proof. reflexivity. Qed.

(** C9. When no name in the listing ends in ".csv", the file loop does
    nothing and the script is the Sentinel Cleaner run on the untouched world:
    the cleanup pass is entered unconditionally.  When moreover the staging
    table has the five target columns, the script returns with the five log
    lines and the five update statements in its history, in the order of
    [fields], both directories as they were, the table's columns and
    collation as they were, and every stored row cleaned in the five
    columns. *)
Theorem C9_cleaner_runs_without_csv_files (listing : list string) (w : World) :
  Forall (λ F, endswith F ".csv" = false) listing →
  script listing w = cleaner w ∧
  (Forall (λ i, i ∈ tcols (staging w)) fields →
   ∃ w',
     script listing w = (w', Done tt) ∧
     source w' = source w ∧
     archive w' = archive w ∧
     history w' =
       history w ++
       [Info "Cleaning numerator column."; Executed (sql1 "numerator");
        Info "Cleaning denominator column."; Executed (sql1 "denominator");
        Info "Cleaning IndicatorValue column."; Executed (sql1 "IndicatorValue");
        Info "Cleaning lowerCI95 column."; Executed (sql1 "lowerCI95");
        Info "Cleaning upperCI95 column."; Executed (sql1 "upperCI95")] ∧
     tcols (staging w') = tcols (staging w) ∧
     case_insensitive (staging w') = case_insensitive (staging w) ∧
     trows (staging w') =
       clean_row (case_insensitive (staging w)) fields <$> trows (staging w)).
Proof.
  intros Hno. rewrite script_run, file_loop_no_csv by done.
  split; [done|]. intros Hcols. unfold cleaner.
  cleanup_facts fields w as (Hs & Ha & Hc & Hr & Hh & Ho).
  pose proof (clean_loop_collation fields w) as Hci.
  rewrite bool_decide_true in Ho by done.
  rewrite runnable_all in Hr by done.
  rewrite cleaner_history_all in Hh by done.
  destruct (for_each clean_field fields w) as [w' o].
  cbn [fst snd] in *. subst o. by exists w'.
Qed.

Lemma C9_cleaner_runs_without_csv_files_witness :
  script ["notes.txt"; "A.CSV"] no_csv_world = cleaner no_csv_world ∧
  ∃ w',
    script ["notes.txt"; "A.CSV"] no_csv_world = (w', Done tt) ∧
    source w' = source no_csv_world ∧
    archive w' = archive no_csv_world ∧
    history w' =
      history no_csv_world ++
      [Info "Cleaning numerator column."; Executed (sql1 "numerator");
       Info "Cleaning denominator column."; Executed (sql1 "denominator");
       Info "Cleaning IndicatorValue column."; Executed (sql1 "IndicatorValue");
       Info "Cleaning lowerCI95 column."; Executed (sql1 "lowerCI95");
       Info "Cleaning upperCI95 column."; Executed (sql1 "upperCI95")] ∧
    tcols (staging w') = tcols (staging no_csv_world) ∧
    case_insensitive (staging w') = case_insensitive (staging no_csv_world) ∧
    trows (staging w') =
      clean_row (case_insensitive (staging no_csv_world)) fields
        <$> trows (staging no_csv_world).
Proof.
  destruct (C9_cleaner_runs_without_csv_files
              ["notes.txt"; "A.CSV"] no_csv_world) as [Heq Hall].
  { apply (bool_decide_unpack _); vm_compute; exact I. }
  split; [exact Heq|]. apply Hall.
  apply (bool_decide_unpack _); vm_compute; exact I.
Defined.

(** ** The renames *)

Lemma rename_ids_label c :
  (let c1 := if bool_decide (c = "Unnamed: 0") then "Column_0" else c in
   let c2 := if bool_decide (c1 = "ValueID") then "Column_0" else c1 in
   if bool_decide (c2 = "ID") then "Column_0" else c2) = canonical c.
Proof.
  unfold canonical, id_aliases. cbv zeta.
  destruct (decide (c = "Unnamed: 0")) as [->|H1]; [done|].
  rewrite (bool_decide_false (c = "Unnamed: 0")) by done.
  destruct (decide (c = "ValueID")) as [->|H2]; [done|].
  rewrite (bool_decide_false (c = "ValueID")) by done.
  destruct (decide (c = "ID")) as [->|H3]; [done|].
  rewrite (bool_decide_false (c = "ID")) by done.
  rewrite bool_decide_false; [done|].
  rewrite !elem_of_cons, elem_of_nil. naive_solver.
Qed.

(** The three renames in sequence are the spec's rename map applied to every
    label; the cells are not touched. *)
Lemma rename_ids_columns df :
  columns (rename_ids df) = canonical <$> columns df.
Proof.
  unfold rename_ids, rename; simpl.
  rewrite <- !list_fmap_compose.
  apply list_fmap_ext; intros _ c _. apply rename_ids_label.
Qed.

Lemma canonical_is_column_0 c :
  canonical c = "Column_0" ↔ c ∈ id_aliases ∨ c = "Column_0".
Proof.
  unfold canonical. case_bool_decide as H; [naive_solver|].
  split; [by right | by intros [?| ->]].
Qed.

(** ** C4 *)

(** C4, as the code has it. The three renames only relabel: every column
    labelled with one of the three aliases is labelled "Column_0" afterwards,
    every other label and every cell is kept, and no column is dropped or
    overwritten. So the frame has one "Column_0" column for each alias column
    (and each "Column_0" column) the file had, each holding its own values in
    its own position. *)
Theorem C4_renames_keep_every_alias_column (df : DataFrame) :
  columns (rename_ids df) = canonical <$> columns df ∧
  values (rename_ids df) = values df ∧
  count_label "Column_0" (rename_ids df) =
    length (filter (λ c, c ∈ id_aliases ∨ c = "Column_0") (columns df)).
Proof.
  split; [apply rename_ids_columns|]. split; [done|].
  unfold count_label. rewrite rename_ids_columns.
  induction (columns df) as [|c cs IH]; [done|].
  rewrite fmap_cons, !filter_cons.
  destruct (decide (canonical c = "Column_0")) as [Hc|Hc];
    destruct (decide (c ∈ id_aliases ∨ c = "Column_0")) as [Ha|Ha];
    simpl; rewrite ?IH; try done.
  - by apply canonical_is_column_0 in Hc.
  - by apply canonical_is_column_0 in Ha.
Qed.

(** A file with the columns ID and ValueID: after the renames both columns
    are there, both labelled "Column_0", with the cells "1" and "2" where they
    were. Nothing was overwritten, and the frame does not have a single
    "Column_0" column. *)
Lemma C4_two_aliases_give_two_columns :
  rename_ids two_ids =
    mkFrame ["Column_0"; "Column_0"; "numerator"]
            [[Some "1"; Some "2"; Some "3"]]
  ∧ ¬ single_canonical_column two_ids.
Proof. split; [reflexivity|]. unfold single_canonical_column. vm_compute. lia. Qed.

(** What the append makes of such a frame is the database's business; here
    an INSERT that names "Column_0" twice is rejected, so the file is neither
    loaded nor moved. *)
Example two_ids_rejected :
  import_file "both.csv" two_ids_world = (two_ids_world, Raised LoadError).
Proof. vm_compute. reflexivity. Qed.

(** ** The appended rows *)

Lemma sql_row_lookup cols labels (R : list cell) c :
  sql_row cols labels R !! c =
  if bool_decide (c ∈ cols)
  then Some (default NULL (list_to_map (M := gmap string cell) (zip labels R) !! c))
  else None.
Proof.
  unfold sql_row. induction cols as [|c0 cols IH]; [done|].
  rewrite fmap_cons, list_to_map_cons, lookup_insert.
  destruct (decide (c0 = c)) as [->|Hne].
  - by rewrite bool_decide_true by set_solver.
  - rewrite IH. case_bool_decide.
    + by rewrite bool_decide_true by set_solver.
    + by rewrite bool_decide_false by set_solver.
Qed.

Lemma NoDup_zip_fst (labels : list string) (R : list cell) :
  NoDup labels → NoDup (zip labels R).*1.
Proof.
  intros Hnd. revert R. induction Hnd as [|c labels Hc _ IH]; intros R.
  { constructor. }
  destruct R as [|x R]; simpl; [constructor|].
  constructor; [|apply IH].
  intros [[c' y] [Heq Hin]]%list_elem_of_fmap. simpl in Heq; subst c'.
  by apply elem_of_zip_l in Hin.
Qed.

(** With distinct labels, the cell under the [j]-th label is the [j]-th cell
    of the row, as it is. *)
Lemma sql_row_cell cols labels (R : list cell) j c x :
  NoDup labels → c ∈ cols →
  labels !! j = Some c → R !! j = Some x →
  sql_row cols labels R !! c = Some x.
Proof.
  intros Hnd Hc Hj Hx. rewrite sql_row_lookup, bool_decide_true by done.
  assert (list_to_map (M := gmap string cell) (zip labels R) !! c = Some x)
    as ->; [|done].
  apply elem_of_list_to_map_1; [by apply NoDup_zip_fst|].
  apply list_elem_of_lookup. exists j. by apply lookup_zip_Some.
Qed.

(** Every cell of an appended row is NULL or a cell of the frame row it was
    built from. *)
Lemma sql_row_cell_inv cols labels (R : list cell) c x :
  sql_row cols labels R !! c = Some x → x = NULL ∨ x ∈ R.
Proof.
  rewrite sql_row_lookup. case_bool_decide; [|done]. intros [= <-].
  destruct (list_to_map (zip labels R) !! c) as [y|] eqn:Hy; [|by left].
  right. apply elem_of_list_to_map_2 in Hy. by apply elem_of_zip_r in Hy.
Qed.

Lemma insert_frame_some df t t' :
  insert_frame df t = Some t' →
  tcols t' = tcols t ∧
  trows t' = trows t ++ (sql_row (tcols t) (columns df) <$> values df) ∧
  (values df ≠ [] →
   NoDup (columns df) ∧ Forall (λ c, c ∈ tcols t) (columns df)).
Proof.
  unfold insert_frame. case_bool_decide as Hv.
  - intros [= <-]. rewrite Hv. simpl. by rewrite app_nil_r.
  - case_bool_decide as Hok; [|done]. by intros [= <-].
Qed.

(** ** C3 *)

(** C3. When the Loader returns for a file, the file parsed to a frame and
    the staging table has gained, after the rows it had, one row per row R of
    the frame, in order, built under the frame's labels with "Unnamed: 0",
    "ValueID" and "ID" replaced by "Column_0" and every other label kept. In
    that row the column named by the renamed [j]-th label holds the [j]-th
    cell of R, for every [j]. *)
Theorem C3_rows_appended_under_canonical_names (F : string) (w w' : World) :
  load_file F w = (w', Done tt) →
  ∃ df,
    source w !! F = Some (Csv df) ∧
    tcols (staging w') = tcols (staging w) ∧
    trows (staging w') =
      trows (staging w) ++
      (sql_row (tcols (staging w)) (canonical <$> columns df) <$> values df) ∧
    ∀ R j c x,
      R ∈ values df →
      columns df !! j = Some c →
      R !! j = Some x →
      sql_row (tcols (staging w)) (canonical <$> columns df) R !! canonical c
        = Some x.
Proof.
  intros (df & t & Hsrc & Hins & ->)%load_file_done.
  apply insert_frame_some in Hins as (Hc & Hr & Hok).
  rewrite rename_ids_columns, rename_ids_values in *.
  exists df. simpl. repeat split; try done.
  intros R j c x HR Hj Hx.
  destruct Hok as [Hnd Hall]. { intros Hnil. rewrite Hnil in HR. by inv HR. }
  apply (sql_row_cell _ _ _ j); try done.
  - rewrite Forall_forall in Hall. apply Hall.
    apply list_elem_of_fmap. exists c. split; [done|].
    apply list_elem_of_lookup. by exists j.
  - by rewrite list_lookup_fmap, Hj.
Qed.

Lemma C3_rows_appended_under_canonical_names_witness :
  ∃ df,
    source demo_world !! "a.csv" = Some (Csv df) ∧
    tcols (staging (load_file "a.csv" demo_world).1) =
      tcols (staging demo_world) ∧
    trows (staging (load_file "a.csv" demo_world).1) =
      trows (staging demo_world) ++
      (sql_row (tcols (staging demo_world)) (canonical <$> columns df)
         <$> values df) ∧
    ∀ R j c x,
      R ∈ values df →
      columns df !! j = Some c →
      R !! j = Some x →
      sql_row (tcols (staging demo_world)) (canonical <$> columns df) R
        !! canonical c = Some x.
Proof.
  apply (C3_rows_appended_under_canonical_names
           "a.csv" demo_world (load_file "a.csv" demo_world).1).
  vm_compute. reflexivity.
Defined.

(** The spec's scenario: "a.csv" with the column "ID" and one data row; the
    table gains one row with "Column_0" populated. *)
Example load_a_csv :
  (λ r, (r !! "Column_0", r !! "numerator", r !! "denominator",
         r !! "IndicatorValue", r !! "ID"))
    <$> trows (staging (load_file "a.csv" demo_world).1)
  = [(Some (Some "7"), Some (Some "NaN"), Some NULL, Some (Some "0.5"), None)].
Proof. vm_compute. reflexivity. Qed.

(** ** C8 *)

(** A column of the table that the INSERT does not name is NULL in the new
    row; a name that is no column of the table is not in the row at all. *)
Lemma sql_row_unnamed cols labels (R : list cell) c :
  c ∈ cols → c ∉ labels → sql_row cols labels R !! c = Some NULL.
Proof.
  intros Hc Hl. rewrite sql_row_lookup, bool_decide_true by done.
  rewrite (not_elem_of_list_to_map_1 (M := gmap string)); [done|].
  intros [[c' y] [Heq Hin]]%list_elem_of_fmap. simpl in Heq; subst c'.
  by apply elem_of_zip_l in Hin.
Qed.

Lemma sql_row_outside cols labels (R : list cell) c :
  c ∉ cols → sql_row cols labels R !! c = None.
Proof. intros Hc. by rewrite sql_row_lookup, bool_decide_false. Qed.

(** C8. When the Loader returns for a file, the staging table keeps its
    columns and every row it had, in place and unchanged, and the file's rows
    come after them, one per row of the file's frame and in the frame's
    order.  The [k]-th new row holds the [k]-th frame row cell by cell: the
    column named by the renamed [j]-th label holds the [j]-th cell verbatim,
    the text that was read; a column of the table that the frame does not
    name is NULL, and the row has no other column.  So every cell of a new
    row is NULL or a cell of its frame row.  Nothing else in the world
    changes except the history. *)
Theorem C8_load_appends_and_keeps_text (F : string) (w w' : World) :
  load_file F w = (w', Done tt) →
  ∃ df new,
    source w !! F = Some (Csv df) ∧
    source w' = source w ∧ archive w' = archive w ∧
    tcols (staging w') = tcols (staging w) ∧
    trows (staging w') = trows (staging w) ++ new ∧
    (∀ k r, trows (staging w) !! k = Some r →
            trows (staging w') !! k = Some r) ∧
    length new = length (values df) ∧
    (∀ k R j c x,
       values df !! k = Some R →
       columns df !! j = Some c → R !! j = Some x →
       ∃ row, new !! k = Some row ∧ row !! canonical c = Some x) ∧
    (∀ k row c,
       new !! k = Some row →
       c ∈ tcols (staging w) → c ∉ canonical <$> columns df →
       row !! c = Some NULL) ∧
    (∀ k row c,
       new !! k = Some row → c ∉ tcols (staging w) → row !! c = None) ∧
    ∀ k row c x,
      new !! k = Some row → row !! c = Some x →
      x = NULL ∨ ∃ R, values df !! k = Some R ∧ x ∈ R.
Proof.
  intros (df & t & Hsrc & Hins & ->)%load_file_done.
  apply insert_frame_some in Hins as (Hc & Hr & Hok).
  rewrite rename_ids_columns, rename_ids_values in *.
  exists df, (sql_row (tcols (staging w)) (canonical <$> columns df)
                <$> values df).
  cbn [source archive staging history]. split_and!; try done.
  - intros k r Hk. rewrite Hr. by apply lookup_app_l_Some.
  - by rewrite length_fmap.
  - intros k R j c x HR Hj Hx. eexists.
    split; [by rewrite list_lookup_fmap, HR|].
    destruct Hok as [Hnd Hall]. { intros Hnil. by rewrite Hnil in HR. }
    apply (sql_row_cell _ _ _ j); try done.
    + rewrite Forall_forall in Hall. apply Hall.
      apply list_elem_of_fmap. exists c. split; [done|].
      apply list_elem_of_lookup. by exists j.
    + by rewrite list_lookup_fmap, Hj.
  - intros k row c Hk Hc1 Hc2.
    apply list_lookup_fmap_Some in Hk as (R & -> & HR).
    by apply sql_row_unnamed.
  - intros k row c Hk Hc1.
    apply list_lookup_fmap_Some in Hk as (R & -> & HR).
    by apply sql_row_outside.
  - intros k row c x Hk Hx.
    apply list_lookup_fmap_Some in Hk as (R & -> & HR).
    apply sql_row_cell_inv in Hx as [->|Hin]; [by left|].
    right. by exists R.
Qed.

Lemma C8_load_appends_and_keeps_text_witness :
  ∃ df new,
    source stocked_world !! "a.csv" = Some (Csv df) ∧
    source (load_file "a.csv" stocked_world).1 = source stocked_world ∧
    archive (load_file "a.csv" stocked_world).1 = archive stocked_world ∧
    tcols (staging (load_file "a.csv" stocked_world).1) =
      tcols (staging stocked_world) ∧
    trows (staging (load_file "a.csv" stocked_world).1) =
      trows (staging stocked_world) ++ new ∧
    (∀ k r, trows (staging stocked_world) !! k = Some r →
            trows (staging (load_file "a.csv" stocked_world).1) !! k = Some r) ∧
    length new = length (values df) ∧
    (∀ k R j c x,
       values df !! k = Some R →
       columns df !! j = Some c → R !! j = Some x →
       ∃ row, new !! k = Some row ∧ row !! canonical c = Some x) ∧
    (∀ k row c,
       new !! k = Some row →
       c ∈ tcols (staging stocked_world) → c ∉ canonical <$> columns df →
       row !! c = Some NULL) ∧
    (∀ k row c,
       new !! k = Some row → c ∉ tcols (staging stocked_world) →
       row !! c = None) ∧
    ∀ k row c x,
      new !! k = Some row → row !! c = Some x →
      x = NULL ∨ ∃ R, values df !! k = Some R ∧ x ∈ R.
Proof.
  apply (C8_load_appends_and_keeps_text
           "a.csv" stocked_world (load_file "a.csv" stocked_world).1).
  vm_compute. reflexivity.
Defined.

(** The load on [stocked_world]: the stored row is still first, as it was,
    and the file's row follows it with the cells of the file under the
    renamed labels, text as read ("NaN" is not cleaned by the Loader). *)
Example load_keeps_stored_row :
  (λ r, (r !! "Column_0", r !! "numerator", r !! "IndicatorValue"))
    <$> trows (staging stocked_world)
  = [(Some (Some "1"), Some (Some "NaN"), Some (Some "0.5"))]
  ∧
  (λ r, (r !! "Column_0", r !! "numerator", r !! "IndicatorValue"))
    <$> trows (staging (load_file "a.csv" stocked_world).1)
  = [(Some (Some "1"), Some (Some "NaN"), Some (Some "0.5"));
     (Some (Some "7"), Some (Some "NaN"), Some (Some "0.5"))].
Proof. split; vm_compute; reflexivity. Qed.

(** ** What one iteration of the file loop may change *)

(** Names other than the one being processed are left where they are. *)
Lemma import_file_frame G w F :
  F ≠ G →
  source (import_file G w).1 !! F = source w !! F ∧
  archived (import_file G w).1 F = archived w F.
Proof.
  intros Hne. destruct (endswith G ".csv") eqn:Hcsv.
  - destruct (import_file_cases G w Hcsv)
      as [[-> _]|[(df & t & _ & _ & Ha & ->)|(df & t & a & _ & _ & Ha & ->)]];
      unfold archived; simpl; rewrite ?Ha; simpl; try done.
    by rewrite lookup_delete_ne, lookup_insert_ne.
  - by rewrite import_file_other.
Qed.

(** A name that is not in the source directory stays out of it, and what the
    archive holds under it stays. *)
Lemma import_file_absent G w F :
  source w !! F = None →
  source (import_file G w).1 !! F = None ∧
  archived (import_file G w).1 F = archived w F.
Proof.
  intros Hnone. destruct (decide (F = G)) as [->|Hne].
  - destruct (endswith G ".csv") eqn:Hcsv; [|by rewrite import_file_other].
    destruct (import_file_cases G w Hcsv)
      as [[-> _]|[(df & t & Hsrc & _)|(df & t & a & Hsrc & _)]];
      [done|congruence..].
  - destruct (import_file_frame G w F Hne) as [-> ->]. done.
Qed.

(** The source directory only loses files. *)
Lemma import_file_shrinks G w F f :
  source (import_file G w).1 !! F = Some f → source w !! F = Some f.
Proof.
  destruct (decide (F = G)) as [->|Hne].
  - destruct (endswith G ".csv") eqn:Hcsv; [|by rewrite import_file_other].
    destruct (import_file_cases G w Hcsv)
      as [[-> _]|[(df & t & _ & _ & _ & ->)|(df & t & a & _ & _ & _ & ->)]];
      simpl; try done.
    by rewrite lookup_delete_eq.
  - by destruct (import_file_frame G w F Hne) as [-> _].
Qed.

Lemma file_loop_frame l w F :
  F ∉ l →
  source (file_loop l w).1 !! F = source w !! F ∧
  archived (file_loop l w).1 F = archived w F.
Proof.
  intros Hnot. unfold file_loop.
  apply (for_each_rel
           (λ w w', source w' !! F = source w !! F ∧
                    archived w' F = archived w F)).
  - by intros ?.
  - intros w1 w2 w3 [H1 H2] [H3 H4]. split; congruence.
  - intros G w0 HG. apply import_file_frame. by intros ->.
Qed.

Lemma file_loop_absent l w F :
  source w !! F = None →
  source (file_loop l w).1 !! F = None ∧
  archived (file_loop l w).1 F = archived w F.
Proof.
  unfold file_loop.
  apply (for_each_rel
           (λ w w', source w !! F = None →
                    source w' !! F = None ∧ archived w' F = archived w F)).
  - by intros ?.
  - intros w1 w2 w3 H12 H23 H1.
    destruct (H12 H1) as [H2 Ha]. destruct (H23 H2) as [H3 Ha'].
    split; congruence.
  - intros G w0 _. apply import_file_absent.
Qed.

Lemma file_loop_shrinks l w F f :
  source (file_loop l w).1 !! F = Some f → source w !! F = Some f.
Proof.
  unfold file_loop.
  apply (for_each_rel
           (λ w w', source w' !! F = Some f → source w !! F = Some f)).
  - by intros ?.
  - intros w1 w2 w3 H12 H23 H3. auto.
  - intros G w0 _. apply import_file_shrinks.
Qed.

(** Every ".csv" name the loop has gone through without raising is out of the
    source directory and in the archive, with the content it had. *)
Lemma file_loop_archives l w w1 F c :
  file_loop l w = (w1, Done tt) →
  F ∈ l → endswith F ".csv" = true →
  source w !! F = Some c →
  source w1 !! F = None ∧ archived w1 F = Some c.
Proof.
  unfold file_loop. revert w.
  induction l as [|G l IH]; intros w Hrun Hin Hcsv Hsrc; [by inv Hin|].
  rewrite for_each_cons in Hrun.
  destruct (import_file G w) as [wG [[]|e]] eqn:HG; [|done].
  destruct (decide (F = G)) as [->|Hne].
  - destruct (import_file_cases G w Hcsv)
      as [[HG' _]|[(df & t & _ & _ & _ & HG')|(df & t & a & Hsrc' & _ & _ & HG')]];
      rewrite HG' in HG; [done..|].
    injection HG as <-.
    match type of Hrun with for_each _ _ ?w0 = _ =>
      destruct (file_loop_absent l w0 G) as [H1 H2] end.
    { simpl. by rewrite lookup_delete_eq. }
    unfold file_loop in H1, H2. rewrite Hrun in H1, H2. simpl in H1, H2.
    split; [done|]. rewrite H2. unfold archived; simpl.
    rewrite lookup_insert_eq. congruence.
  - apply (IH wG); try done.
    + apply elem_of_cons in Hin as [?|?]; done.
    + destruct (import_file_frame G w F Hne) as [Hs _].
      rewrite HG in Hs. simpl in Hs. congruence.
Qed.

(** The loop goes through the listing as if the names that do not end in
    ".csv" were not in it. *)
Lemma file_loop_filter l w :
  file_loop l w = file_loop (filter (λ F, endswith F ".csv" = true) l) w.
Proof.
  unfold file_loop. revert w. induction l as [|G l IH]; intros w; [done|].
  rewrite filter_cons. destruct (decide (endswith G ".csv" = true)) as [Hcsv|Hcsv].
  - rewrite !for_each_cons. destruct (import_file G w) as [wG [[]|e]]; [apply IH|done].
  - rewrite for_each_cons, import_file_other by by destruct (endswith G ".csv").
    apply IH.
Qed.

Lemma cleaner_keeps_files w :
  source (cleaner w).1 = source w ∧ archive (cleaner w).1 = archive w.
Proof.
  unfold cleaner. by cleanup_facts fields w as (? & ? & _).
Qed.

Lemma file_loop_other_names l w F :
  endswith F ".csv" = false →
  source (file_loop l w).1 !! F = source w !! F ∧
  archived (file_loop l w).1 F = archived w F.
Proof.
  intros Hcsv. unfold file_loop.
  apply (for_each_rel
           (λ w w', source w' !! F = source w !! F ∧
                    archived w' F = archived w F)).
  - by intros ?.
  - intros w1 w2 w3 [H1 H2] [H3 H4]. split; congruence.
  - intros G w0 _. destruct (decide (F = G)) as [<-|Hne].
    + by rewrite import_file_other.
    + by apply import_file_frame.
Qed.

Lemma script_files listing w F :
  source (script listing w).1 !! F = source (file_loop listing w).1 !! F ∧
  archived (script listing w).1 F = archived (file_loop listing w).1 F.
Proof.
  rewrite script_run. destruct (file_loop listing w) as [w1 [[]|e]]; [|done].
  destruct (cleaner_keeps_files w1) as [Hs Ha]. unfold archived.
  simpl. by rewrite Hs, Ha.
Qed.

(** ** C2 *)

(** C2. Let [listing] be what [os.listdir] reports for the source directory,
    and let the file loop go through it without raising. Then, when the
    script ends, every file of the source directory whose name ends in ".csv"
    is out of the source directory and in the archive directory, with its
    content. A name that does not end in ".csv" keeps its entry in the source
    directory and the archive holds under it what it held, and the script
    runs exactly as it does on the listing with those names removed: they are
    never read, loaded or moved. *)
Theorem C2_csv_files_move_to_archive (listing : list string) (w w1 : World) :
  os_listdir w listing →
  file_loop listing w = (w1, Done tt) →
  (∀ F c,
     source w !! F = Some c → endswith F ".csv" = true →
     source (script listing w).1 !! F = None ∧
     archived (script listing w).1 F = Some c) ∧
  (∀ F,
     endswith F ".csv" = false →
     source (script listing w).1 !! F = source w !! F ∧
     archived (script listing w).1 F = archived w F) ∧
  script listing w =
    script (filter (λ F, endswith F ".csv" = true) listing) w.
Proof.
  intros [_ Hls] Hrun. repeat split.
  - destruct (script_files listing w F) as [-> _]. rewrite Hrun. simpl.
    eapply file_loop_archives; [done| |done..].
    apply (elem_of_list_to_set (C := gset string)). rewrite Hls.
    apply elem_of_dom. by exists c.
  - destruct (script_files listing w F) as [_ ->]. rewrite Hrun. simpl.
    eapply file_loop_archives; [done| |done..].
    apply (elem_of_list_to_set (C := gset string)). rewrite Hls.
    apply elem_of_dom. by exists c.
  - destruct (script_files listing w F) as [-> _].
    by apply file_loop_other_names.
  - destruct (script_files listing w F) as [_ ->].
    by apply file_loop_other_names.
  - by rewrite !script_run, <- file_loop_filter.
Qed.

Lemma C2_csv_files_move_to_archive_witness :
  (∀ F c,
     source demo_world !! F = Some c → endswith F ".csv" = true →
     source (script ["notes.txt"; "a.csv"] demo_world).1 !! F = None ∧
     archived (script ["notes.txt"; "a.csv"] demo_world).1 F = Some c) ∧
  (∀ F,
     endswith F ".csv" = false →
     source (script ["notes.txt"; "a.csv"] demo_world).1 !! F =
       source demo_world !! F ∧
     archived (script ["notes.txt"; "a.csv"] demo_world).1 F =
       archived demo_world F) ∧
  script ["notes.txt"; "a.csv"] demo_world =
    script (filter (λ F, endswith F ".csv" = true) ["notes.txt"; "a.csv"])
           demo_world.
Proof.
  apply (C2_csv_files_move_to_archive
           ["notes.txt"; "a.csv"] demo_world
           (file_loop ["notes.txt"; "a.csv"] demo_world).1).
  - apply (bool_decide_unpack _). vm_compute. exact I.
  - vm_compute. reflexivity.
Defined.

Example demo_run_files :
  source (script ["notes.txt"; "a.csv"] demo_world).1 =
    {["notes.txt" := Unreadable]}
  ∧ archive (script ["notes.txt"; "a.csv"] demo_world).1 =
    Some {["a.csv" := Csv demo_frame]}
  ∧ (script ["notes.txt"; "a.csv"] demo_world).2 = Done tt.
Proof. repeat split; vm_compute; reflexivity. Qed.

(** ** Histories *)

Lemma moves_follow_loads_nil src : moves_follow_loads src [].
Proof. intros pre F post H. by destruct pre. Qed.

Lemma moves_follow_loads_mono src src' h :
  (∀ F f, src !! F = Some f → src' !! F = Some f) →
  moves_follow_loads src h → moves_follow_loads src' h.
Proof.
  intros Hsub Hh pre F post Heq.
  destruct (Hh pre F post Heq) as (pre' & df & -> & Hsrc). eauto.
Qed.

Lemma moves_follow_loads_app src h1 h2 :
  moves_follow_loads src h1 → moves_follow_loads src h2 →
  moves_follow_loads src (h1 ++ h2).
Proof.
  intros H1 H2 pre F post Heq.
  apply app_eq_app in Heq as [l [[-> Heq]|[-> ->]]].
  - destruct l as [|e l]; simpl in Heq.
    + destruct (H2 [] F post) as (pre' & df & Hnil & _); [done|].
      by destruct pre'.
    + injection Heq as <- ->. by apply (H1 pre F l).
  - destruct (H2 l F post eq_refl) as (pre' & df & -> & Hsrc).
    exists (h1 ++ pre'), df. by rewrite app_assoc.
Qed.

Lemma moves_follow_loads_no_move src h :
  (∀ F, Moved F ∉ h) → moves_follow_loads src h.
Proof.
  intros Hno pre F post ->. destruct (Hno F). set_solver.
Qed.

Lemma moves_follow_loads_pair src F df :
  src !! F = Some (Csv df) →
  moves_follow_loads src [Inserted (rename_ids df); Moved F].
Proof.
  intros Hsrc pre G post Heq.
  destruct pre as [|e1 [|e2 [|e3 pre]]]; simplify_eq/=.
  by exists [], df.
Qed.

Lemma file_loop_trace_refl : Reflexive file_loop_trace.
Proof.
  intros w. split; [done|]. exists []. rewrite app_nil_r.
  split_and!; [done|apply moves_follow_loads_nil|done|constructor].
Qed.

Lemma file_loop_trace_trans : Transitive file_loop_trace.
Proof.
  intros w1 w2 w3 [Hs12 (h1 & Hh1 & Hm1 & Ha1 & Hc1)]
                  [Hs23 (h2 & Hh2 & Hm2 & Ha2 & Hc2)].
  split; [auto|]. exists (h1 ++ h2). split_and!.
  - by rewrite Hh2, Hh1, app_assoc.
  - apply moves_follow_loads_app; [done|].
    by apply (moves_follow_loads_mono (source w2)).
  - intros F HF. rewrite Ha2, Ha1; [done|..]; set_solver.
  - by apply Forall_app.
Qed.

Lemma import_file_trace G w : file_loop_trace w (import_file G w).1.
Proof.
  split; [intros F f; apply import_file_shrinks|].
  destruct (endswith G ".csv") eqn:Hcsv.
  - destruct (import_file_cases G w Hcsv)
      as [[-> _]|[(df & t & _ & _ & Ha & ->)|(df & t & a & Hsrc & _ & Ha & ->)]];
      simpl.
    + exists []. rewrite app_nil_r.
      split_and!; [done|apply moves_follow_loads_nil|done|constructor].
    + exists [Inserted (rename_ids df)]. split_and!.
      * done.
      * apply moves_follow_loads_no_move. set_solver.
      * intros F _. unfold archived; simpl. by rewrite Ha.
      * by repeat constructor.
    + exists [Inserted (rename_ids df); Moved G]. split_and!.
      * done.
      * by apply moves_follow_loads_pair.
      * intros F HF. unfold archived; simpl. rewrite Ha; simpl.
        rewrite lookup_insert_ne; [done|]. set_solver.
      * by repeat constructor.
  - rewrite import_file_other by done. apply file_loop_trace_refl.
Qed.

Lemma file_loop_has_trace l w : file_loop_trace w (file_loop l w).1.
Proof.
  unfold file_loop. apply for_each_rel.
  - apply file_loop_trace_refl.
  - apply file_loop_trace_trans.
  - intros G w0 _. apply import_file_trace.
Qed.




Lemma script_aborts_in_file_loop listing w w1 e :
  file_loop listing w = (w1, Raised e) → script listing w = (w1, Raised e).
Proof. intros H. by rewrite script_run, H. Qed.

(** ** C6 *)


(** ** C7 *)

(** C7. No error is caught. When an iteration of the file loop raises, the
    script ends with that error in the world that iteration left: the history
    has grown by nothing, or by the one insert when it was the move that
    failed, so the cleanup pass has not run, and every later file that was
    not listed before is where it was, in the source directory and in the
    archive. When a cleanup statement raises, the script ends with that
    UpdateError: the table is as the statements before it left it, and the
    history ends with the log line of the failing statement, so none of the
    remaining statements has run. *)
Theorem C7_errors_abort_the_run (listing : list string) (w : World) :
  (∀ l1 F l2 w1 w2 e,
     listing = l1 ++ F :: l2 →
     file_loop l1 w = (w1, Done tt) →
     import_file F w1 = (w2, Raised e) →
     script listing w = (w2, Raised e) ∧
     (history w2 = history w1 ∨
      ∃ df, e = MoveError ∧
            history w2 = history w1 ++ [Inserted (rename_ids df)]) ∧
     (∃ h, history w2 = history w ++ h ∧
           Forall (λ ev, is_cleanup_event ev = false) h) ∧
     (∀ G, G ∈ l2 → G ∉ l1 → G ≠ F →
           source w2 !! G = source w !! G ∧ archived w2 G = archived w G)) ∧
  (∀ c1 i c2 w1 w2 w3 e,
     fields = c1 ++ i :: c2 →
     file_loop listing w = (w1, Done tt) →
     for_each clean_field c1 w1 = (w2, Done tt) →
     clean_field i w2 = (w3, Raised e) →
     script listing w = (w3, Raised e) ∧
     e = UpdateError ∧
     staging w3 = staging w2 ∧
     history w3 =
       history w1 ++ (c1 ≫= cleaning_events) ++
       [Info ("Cleaning " +:+ i +:+ " column.")]).
Proof.
  split.
  - intros l1 F l2 w1 w2 e -> Hl1 HF.
    assert (file_loop (l1 ++ F :: l2) w = (w2, Raised e)) as Hloop
      by (unfold file_loop in *; by eapply for_each_abort).
    split_and!.
    + by apply script_aborts_in_file_loop.
    + destruct (endswith F ".csv") eqn:Hcsv.
      * destruct (import_file_cases F w1 Hcsv)
          as [[HF' _]|[(df & t & _ & _ & _ & HF')|(df & t & a & _ & _ & _ & HF')]];
          rewrite HF' in HF; simplify_eq/=; [by left|].
        right. by exists df.
      * by rewrite import_file_other in HF.
    + destruct (file_loop_has_trace (l1 ++ F :: l2) w)
        as [_ (h & Hh & _ & _ & Hc)].
      rewrite Hloop in Hh. by exists h.
    + intros G HG2 HG1 HGF.
      destruct (file_loop_frame l1 w G HG1) as [Hs Ha].
      rewrite Hl1 in Hs, Ha. simpl in Hs, Ha.
      destruct (import_file_frame F w1 G HGF) as [Hs' Ha'].
      rewrite HF in Hs', Ha'. simpl in Hs', Ha'. split; congruence.
  - intros c1 i c2 w1 w2 w3 e Hfields Hloop Hc1 Hi.
    assert (cleaner w1 = (w3, Raised e)) as Hclean.
    { unfold cleaner. rewrite Hfields. by eapply for_each_abort. }
    rewrite clean_field_run in Hi.
    case_bool_decide as Hcol; [done|]. injection Hi as <- <-.
    split_and!; [by rewrite script_run, Hloop| done..|].
    cleanup_facts c1 w1 as (_ & _ & _ & _ & Hh & Ho).
    rewrite Hc1 in Hh, Ho. simpl in Hh, Ho.
    case_bool_decide as Hall; [|done].
    rewrite cleaner_history_all in Hh by done.
    simpl. by rewrite Hh, <- app_assoc.
Qed.


(** A broken file between two good ones: the first is loaded and archived,
    the run stops at the second, the third is still in the source directory
    and the cleanup pass has left no event. *)
Example broken_run :
  let r := script ["a.csv"; "b.csv"; "c.csv"] broken_world in
  r.2 = Raised LoadError
  ∧ source r.1 = {["b.csv" := Unreadable; "c.csv" := Csv demo_frame]}
  ∧ archive r.1 = Some {["a.csv" := Csv demo_frame]}
  ∧ history r.1 = [Inserted (rename_ids demo_frame); Moved "a.csv"]
  ∧ length (trows (staging r.1)) = 1.
Proof. repeat split; vm_compute; reflexivity. Qed.

(** Without the archive directory: the rows of the first file are in the
    table, the file is still in the source directory, the run has stopped. *)
Example no_archive_run :
  let r := script ["a.csv"; "c.csv"] no_archive_world in
  r.2 = Raised MoveError
  ∧ source r.1 = source no_archive_world
  ∧ archive r.1 = None
  ∧ history r.1 = [Inserted (rename_ids demo_frame)]
  ∧ length (trows (staging r.1)) = 1.
Proof. repeat split; vm_compute; reflexivity. Qed.

Lemma C7_errors_abort_the_run_witness :
  let l := ["a.csv"; "c.csv"] in
  let w2 := (import_file "a.csv" no_archive_world).1 in
  let v2 := (for_each clean_field ["numerator"] narrow_world).1 in
  let v3 := (clean_field "denominator" v2).1 in
  (script l no_archive_world = (w2, Raised MoveError) ∧
   (history w2 = history no_archive_world ∨
    ∃ df, MoveError = MoveError ∧
          history w2 =
            history no_archive_world ++ [Inserted (rename_ids df)]) ∧
   (∃ h, history w2 = history no_archive_world ++ h ∧
         Forall (λ ev, is_cleanup_event ev = false) h) ∧
   (∀ G, G ∈ ["c.csv"] → G ∉ [] → G ≠ "a.csv" →
         source w2 !! G = source no_archive_world !! G ∧
         archived w2 G = archived no_archive_world G)) ∧
  (script ["notes.txt"] narrow_world = (v3, Raised UpdateError) ∧
   UpdateError = UpdateError ∧
   staging v3 = staging v2 ∧
   history v3 =
     history narrow_world ++ (["numerator"] ≫= cleaning_events) ++
     [Info ("Cleaning " +:+ "denominator" +:+ " column.")]).
Proof.
  intros l w2 v2 v3. split.
  - destruct (C7_errors_abort_the_run l no_archive_world) as [H1 _].
    apply (H1 [] "a.csv" ["c.csv"] no_archive_world w2 MoveError);
      vm_compute; reflexivity.
  - destruct (C7_errors_abort_the_run ["notes.txt"] narrow_world) as [_ H2].
    apply (H2 ["numerator"] "denominator"
              ["IndicatorValue"; "lowerCI95"; "upperCI95"]
              narrow_world v2 v3 UpdateError);
      vm_compute; reflexivity.
Defined.

(** A table without the denominator column: the first statement runs, the
    second is announced and rejected, the other three are never sent. *)
Example narrow_run :
  let r := script ["notes.txt"] narrow_world in
  r.2 = Raised UpdateError
  ∧ history r.1 =
      [Info "Cleaning numerator column."; Executed (sql1 "numerator");
       Info "Cleaning denominator column."]
  ∧ (λ r, r !! "numerator") <$> trows (staging r.1) = [Some NULL].
Proof. repeat split; vm_compute; reflexivity. Qed.

(** * Further properties of the script *)

(** ** The extension filter *)

Lemma endswith_iff s suffix :
  endswith s suffix = true ↔ ∃ p, s = p +:+ suffix.
Proof.
  split.
  - induction s as [|a s IH]; cbn [endswith].
    + rewrite orb_false_r. intros ->%String.eqb_eq. by exists "".
    + intros [->%String.eqb_eq|Hs]%orb_true_iff; [by exists ""|].
      destruct (IH Hs) as [p ->]. by exists (String a p).
  - intros [p ->]. induction p as [|a p IH].
    + change ("" +:+ suffix) with suffix.
      destruct suffix; cbn [endswith]; by rewrite String.eqb_refl.
    + change (String a p +:+ suffix) with (String a (p +:+ suffix)).
      cbn [endswith]. rewrite IH. apply orb_true_r.
Qed.

(** X1. The loop body acts on a name exactly when the name is some text
    followed by ".csv" (the bare name ".csv" included, the comparison being
    case-sensitive); on every other name it returns at once and leaves the
    world as it is. *)
Theorem X1_filter_accepts_exactly_csv_names (F : string) :
  (endswith F ".csv" = true ↔ ∃ p, F = p +:+ ".csv") ∧
  ((¬ ∃ p, F = p +:+ ".csv") → ∀ w, import_file F w = (w, Done tt)) ∧
  ((∃ p, F = p +:+ ".csv") →
   ∀ w, source w !! F = None → import_file F w = (w, Raised LoadError)).
Proof.
  split_and!; [apply endswith_iff|..].
  - intros Hno w. apply import_file_other.
    destruct (endswith F ".csv") eqn:E; [|done].
    by apply endswith_iff in E.
  - intros Hcsv%endswith_iff w Hnone.
    destruct (import_file_cases F w Hcsv)
      as [[-> _]|[(df & t & ? & _)|(df & t & a & ? & _)]]; [done|congruence..].
Qed.

(** ** The renames, in any order *)

Lemma frame_eq df1 df2 :
  columns df1 = columns df2 → values df1 = values df2 → df1 = df2.
Proof. destruct df1, df2; simpl; congruence. Qed.

Lemma rename_all_run olds df :
  rename_all olds df =
  mkFrame ((λ c, if bool_decide (c ∈ olds) then "Column_0" else c)
             <$> columns df)
          (values df).
Proof.
  unfold rename_all. revert df.
  induction olds as [|old olds IH]; intros df; simpl.
  { apply frame_eq; simpl; [|done]. symmetry. apply list_fmap_id. }
  rewrite IH. apply frame_eq; simpl; [|done].
  rewrite <- list_fmap_compose. apply list_fmap_ext; intros _ c _; simpl.
  destruct (decide (c = old)) as [->|Hne].
  - rewrite (bool_decide_true (old = old)) by done.
    rewrite (bool_decide_true (old ∈ old :: olds)) by set_solver.
    by case_bool_decide.
  - rewrite (bool_decide_false (c = old)) by done.
    case_bool_decide.
    + by rewrite bool_decide_true by set_solver.
    + by rewrite bool_decide_false by set_solver.
Qed.

(** X2. The result of the renames does not depend on their order or on how
    often each is applied: renaming, one after the other, any list of labels
    that names exactly the three aliases gives the frame the script's three
    renames give. In particular the three renames applied twice change
    nothing more. *)
Theorem X2_renames_in_any_order (olds : list string) (df : DataFrame) :
  list_to_set olds =@{gset string} list_to_set id_aliases →
  rename_all olds df = rename_ids df ∧
  rename_ids (rename_ids df) = rename_ids df.
Proof.
  intros Hset.
  assert (∀ l, list_to_set l =@{gset string} list_to_set id_aliases →
               rename_all l df = rename_ids df) as Hany.
  { intros l Hl. change (rename_ids df) with (rename_all id_aliases df).
    rewrite !rename_all_run. f_equal.
    apply list_fmap_ext; intros _ c _.
    assert (c ∈ l ↔ c ∈ id_aliases) as Hiff.
    { rewrite <- !(elem_of_list_to_set (C := gset string)). by rewrite Hl. }
    by rewrite (bool_decide_ext _ _ Hiff). }
  split; [by apply Hany|].
  change (rename_ids (rename_ids df))
    with (rename_all (id_aliases ++ id_aliases) df).
  apply Hany. set_solver.
Qed.

Lemma X2_renames_in_any_order_witness :
  rename_all ["ID"; "Unnamed: 0"; "ID"; "ValueID"] two_ids = rename_ids two_ids ∧
  rename_ids (rename_ids two_ids) = rename_ids two_ids.
Proof.
  apply (X2_renames_in_any_order ["ID"; "Unnamed: 0"; "ID"; "ValueID"] two_ids).
  vm_compute. reflexivity.
Defined.

Lemma fmap_fixed (f : string → string) (l : list string) :
  f <$> l = l ↔ Forall (λ c, f c = c) l.
Proof.
  induction l as [|c l IH]; [by split; [constructor|]|].
  rewrite fmap_cons, Forall_cons, <- IH. split.
  - by intros [= ? ?].
  - by intros [-> ->].
Qed.

(** X3. The renames leave a frame exactly as it was read if and only if none
    of its labels is one of the three aliases. *)
Theorem X3_renames_change_only_alias_frames (df : DataFrame) :
  rename_ids df = df ↔ Forall (λ c, c ∉ id_aliases) (columns df).
Proof.
  assert (∀ c, canonical c = c ↔ c ∉ id_aliases) as Hfix.
  { intros c. unfold canonical. case_bool_decide as Hc; [|done].
    split; [|done]. intros <-. exfalso.
    unfold id_aliases in Hc. rewrite !elem_of_cons, elem_of_nil in Hc.
    naive_solver. }
  rewrite <- (Forall_iff _ _ _ Hfix), <- fmap_fixed, <- rename_ids_columns.
  split; [by intros ->|]. intros Hc. by apply frame_eq.
Qed.

(** ** Nothing is lost *)

Lemma import_file_keeps_or_archives G w F c :
  source w !! F = Some c →
  source (import_file G w).1 !! F = Some c ∨
  (source (import_file G w).1 !! F = None ∧
   archived (import_file G w).1 F = Some c).
Proof.
  intros Hsrc. destruct (decide (F = G)) as [->|Hne].
  - destruct (endswith G ".csv") eqn:Hcsv;
      [|left; by rewrite import_file_other].
    destruct (import_file_cases G w Hcsv)
      as [[-> _]|[(df & t & _ & _ & _ & ->)|(df & t & a & Hsrc' & _ & _ & ->)]];
      simpl; [by left..|].
    right. unfold archived; simpl.
    rewrite lookup_delete_eq, lookup_insert_eq. split; [done|congruence].
  - left. by destruct (import_file_frame G w F Hne) as [-> _].
Qed.

(** X4. No file of the source directory is ever lost: however the script
    ends, and whatever the listing, a file that was in the source directory
    is afterwards either still there with its content, or gone from there and
    in the archive under its name with its content. *)
Theorem X4_no_source_file_is_lost (listing : list string) (w : World)
    (F : string) (c : file) :
  source w !! F = Some c →
  source (script listing w).1 !! F = Some c ∨
  (source (script listing w).1 !! F = None ∧
   archived (script listing w).1 F = Some c).
Proof.
  intros Hsrc. destruct (script_files listing w F) as [-> ->].
  revert F c Hsrc. unfold file_loop.
  apply (for_each_rel
           (λ w w',
              (∀ F, source w !! F = None →
                    source w' !! F = None ∧ archived w' F = archived w F) ∧
              (∀ F c, source w !! F = Some c →
                 source w' !! F = Some c ∨
                 (source w' !! F = None ∧ archived w' F = Some c)))
           import_file listing w).
  - intros w0. split; [done|]. intros F c ?. by left.
  - intros w1 w2 w3 [Hn12 Hs12] [Hn23 Hs23]. split.
    + intros F H1. destruct (Hn12 F H1) as [H2 Ha2].
      destruct (Hn23 F H2) as [H3 Ha3]. split; congruence.
    + intros F c H1.
      destruct (Hs12 F c H1) as [H2|[H2 Ha2]]; [by apply Hs23|].
      right. destruct (Hn23 F H2) as [H3 Ha3]. split; congruence.
  - intros G w0 _. split.
    + intros F. apply import_file_absent.
    + intros F c. apply import_file_keeps_or_archives.
Qed.

Lemma X4_no_source_file_is_lost_witness :
  let w' := (script ["a.csv"; "b.csv"; "c.csv"] broken_world).1 in
  (source w' !! "a.csv" = Some (Csv demo_frame) ∨
   (source w' !! "a.csv" = None ∧ archived w' "a.csv" = Some (Csv demo_frame))) ∧
  (source w' !! "c.csv" = Some (Csv demo_frame) ∨
   (source w' !! "c.csv" = None ∧ archived w' "c.csv" = Some (Csv demo_frame))).
Proof.
  split.
  - apply (X4_no_source_file_is_lost
             ["a.csv"; "b.csv"; "c.csv"] broken_world "a.csv").
    vm_compute. reflexivity.
  - apply (X4_no_source_file_is_lost
             ["a.csv"; "b.csv"; "c.csv"] broken_world "c.csv").
    vm_compute. reflexivity.
Defined.

(** ** The table under the file loop *)

Lemma import_file_appends G w :
  tcols (staging (import_file G w).1) = tcols (staging w) ∧
  ∃ new,
    trows (staging (import_file G w).1) = trows (staging w) ++ new.
Proof.
  destruct (endswith G ".csv") eqn:Hcsv.
  - destruct (import_file_cases G w Hcsv)
      as [[-> _]|[(df & t & _ & Hins & _ & ->)
                 |(df & t & a & _ & Hins & _ & ->)]]; simpl.
    + split; [done|]. exists []. by rewrite app_nil_r.
    + apply insert_frame_some in Hins as (? & ? & _). eauto.
    + apply insert_frame_some in Hins as (? & ? & _). eauto.
  - rewrite import_file_other by done. split; [done|].
    exists []. by rewrite app_nil_r.
Qed.

Lemma file_loop_appends listing w :
  tcols (staging (file_loop listing w).1) = tcols (staging w) ∧
  ∃ new, trows (staging (file_loop listing w).1) = trows (staging w) ++ new.
Proof.
  unfold file_loop.
  apply (for_each_rel
           (λ w w', tcols (staging w') = tcols (staging w) ∧
                    ∃ new, trows (staging w') = trows (staging w) ++ new)).
  - intros w0. split; [done|]. exists []. by rewrite app_nil_r.
  - intros w1 w2 w3 [Hc12 [n1 Hr12]] [Hc23 [n2 Hr23]].
    split; [congruence|]. exists (n1 ++ n2).
    by rewrite Hr23, Hr12, app_assoc.
  - intros G w0 _. apply import_file_appends.
Qed.

(** X5. The file loop only ever appends: however it ends, the table has the
    columns it had and its rows begin with the rows it had, in place and
    unchanged. No stored row is rewritten or removed by a load, a failed
    load or a failed move. *)
Theorem X5_file_loop_only_appends (listing : list string) (w : World) :
  tcols (staging (file_loop listing w).1) = tcols (staging w) ∧
  ∃ new,
    trows (staging (file_loop listing w).1) = trows (staging w) ++ new ∧
    ∀ k r, trows (staging w) !! k = Some r →
           trows (staging (file_loop listing w).1) !! k = Some r.
Proof.
  destruct (file_loop_appends listing w) as [Hc [new Hr]].
  split; [done|]. exists new. split; [done|].
  intros k r Hk. rewrite Hr. by apply lookup_app_l_Some.
Qed.

(** ** The cleaner and the rest of the world *)

Lemma runnable_subseteq cols cs i : i ∈ runnable cols cs → i ∈ cs.
Proof.
  induction cs as [|j cs IH]; simpl; [done|].
  case_bool_decide; [|by intros ?%elem_of_nil]. set_solver.
Qed.

(** X6. The cleanup pass touches nothing but text cells in the five target
    columns: however it ends, both directories, the table's columns and the
    number and order of the rows are as they were, and in every row each cell
    outside the five columns, and each NULL cell, is what it was. *)
Theorem X6_cleaner_touches_only_target_cells (w : World) :
  source (cleaner w).1 = source w ∧
  archive (cleaner w).1 = archive w ∧
  tcols (staging (cleaner w).1) = tcols (staging w) ∧
  length (trows (staging (cleaner w).1)) = length (trows (staging w)) ∧
  ∀ k r,
    trows (staging w) !! k = Some r →
    ∃ r',
      trows (staging (cleaner w).1) !! k = Some r' ∧
      dom r' = dom r ∧
      (∀ c, c ∉ fields → r' !! c = r !! c) ∧
      (∀ c, r !! c = Some NULL → r' !! c = Some NULL).
Proof.
  unfold cleaner. cleanup_facts fields w as (Hs & Ha & Hc & Hr & _ & _).
  split_and!; [done..|by rewrite Hr, length_fmap|].
  intros k r Hk. eexists. split; [by rewrite Hr, list_lookup_fmap, Hk|].
  split_and!.
  - apply set_eq; intros c. rewrite !elem_of_dom, clean_row_lookup.
    case_bool_decide; [|done]. by rewrite fmap_is_Some.
  - intros c Hc'. rewrite clean_row_lookup, bool_decide_false; [done|].
    intros Hin. by apply Hc', (runnable_subseteq (tcols (staging w))).
  - intros c Hnull. rewrite clean_row_lookup, Hnull. by case_bool_decide.
Qed.

(** ** A run that returns *)

Lemma script_done listing w w' :
  script listing w = (w', Done tt) →
  ∃ w1, file_loop listing w = (w1, Done tt) ∧ cleaner w1 = (w', Done tt).
Proof.
  rewrite script_run. destruct (file_loop listing w) as [w1 [[]|e]]; [|done].
  intros Hc. by exists w1.
Qed.

Lemma cleaner_done w w' :
  cleaner w = (w', Done tt) →
  Forall (λ i, i ∈ tcols (staging w)) fields ∧
  source w' = source w ∧ archive w' = archive w ∧
  tcols (staging w') = tcols (staging w) ∧
  trows (staging w') =
    clean_row (case_insensitive (staging w)) fields <$> trows (staging w) ∧
  case_insensitive (staging w') = case_insensitive (staging w).
Proof.
  unfold cleaner. intros Hrun.
  cleanup_facts fields w as (Hs & Ha & Hc & Hr & _ & Ho).
  pose proof (clean_loop_collation fields w) as Hci.
  rewrite Hrun in *. cbn [fst snd] in *.
  case_bool_decide as Hall; [|done].
  by rewrite runnable_all in Hr.
Qed.

Lemma cleaner_total w :
  Forall (λ i, i ∈ tcols (staging w)) fields →
  cleaner w = ((cleaner w).1, Done tt).
Proof.
  intros Hall. unfold cleaner.
  cleanup_facts fields w as (_ & _ & _ & _ & _ & Ho).
  rewrite bool_decide_true in Ho by done.
  destruct (for_each clean_field fields w) as [w' o]. simpl in *. by subst.
Qed.

(** X7. When the script returns, no row of the staging table, whether it was
    there before or was loaded in this run, holds a sentinel string in any of
    the five target columns. *)
Theorem X7_no_sentinel_left_after_a_run (listing : list string) (w w' : World) :
  script listing w = (w', Done tt) →
  ∀ r col s,
    r ∈ trows (staging w') → col ∈ fields →
    r !! col = Some (Some s) → s ∉ sentinels.
Proof.
  intros (w1 & _ & (_ & _ & _ & _ & Hr & _)%cleaner_done)%script_done.
  intros r col s Hin Hcol Hcell. rewrite Hr in Hin.
  apply list_elem_of_fmap in Hin as (r0 & -> & _).
  rewrite clean_row_lookup, bool_decide_true in Hcell by done.
  destruct (r0 !! col) as [[s0|]|]; [|done..].
  unfold scrub_cell in Hcell. cbn [fmap option_fmap option_map] in Hcell.
  destruct (sql_in _ s0 sentinels) eqn:E; [done|].
  injection Hcell as ->. intros Hin. by rewrite sql_in_elem in E.
Qed.

Lemma X7_no_sentinel_left_after_a_run_witness :
  "0.5" ∉ sentinels.
Proof.
  assert (script ["a.csv"] stocked_world =
          ((script ["a.csv"] stocked_world).1, Done tt)) as Hrun
    by (vm_compute; reflexivity).
  apply (X7_no_sentinel_left_after_a_run
           ["a.csv"] stocked_world (script ["a.csv"] stocked_world).1 Hrun
           (default ∅ (trows (staging (script ["a.csv"] stocked_world).1) !! 1))
           "IndicatorValue" "0.5").
  - apply (bool_decide_unpack _). vm_compute. exact I.
  - apply (bool_decide_unpack _). vm_compute. exact I.
  - vm_compute. reflexivity.
Defined.

(** Both rows of the table after the run on [stocked_world]: the stored row
    and the loaded row, with "NaN" and "" gone from the target columns. *)
Example stocked_run_rows :
  (λ r, (r !! "Column_0", r !! "numerator", r !! "lowerCI95"))
    <$> trows (staging (script ["a.csv"] stocked_world).1)
  = [(Some (Some "1"), Some NULL, Some NULL);
     (Some (Some "7"), Some NULL, Some NULL)].
Proof. vm_compute. reflexivity. Qed.

(** ** Running the script again *)

Lemma file_loop_leaves_no_csv listing w w1 F :
  list_to_set listing = dom (source w) →
  file_loop listing w = (w1, Done tt) →
  is_Some (source w1 !! F) → endswith F ".csv" = false.
Proof.
  intros Hls Hrun [f Hf].
  destruct (endswith F ".csv") eqn:Hcsv; [|done].
  pose proof (file_loop_shrinks listing w F f) as Hsh.
  rewrite Hrun in Hsh. specialize (Hsh Hf).
  destruct (file_loop_archives listing w w1 F f Hrun) as [Hnone _];
    [|done|done|congruence].
  apply (elem_of_list_to_set (C := gset string)). rewrite Hls.
  apply elem_of_dom. by exists f.
Qed.

(** X8. A run that returned can be repeated safely: run again on the world it
    left, with whatever [os.listdir] then reports, the script returns, moves
    and loads nothing, and leaves both directories and the staging table
    exactly as the first run left them. *)
Theorem X8_second_run_changes_nothing
    (listing listing' : list string) (w w' : World) :
  os_listdir w listing →
  script listing w = (w', Done tt) →
  os_listdir w' listing' →
  ∃ w'',
    script listing' w' = (w'', Done tt) ∧
    source w'' = source w' ∧
    archive w'' = archive w' ∧
    staging w'' = staging w' ∧
    history w'' = history w' ++ (fields ≫= cleaning_events).
Proof.
  intros [_ Hls] (w1 & Hloop & Hclean)%script_done [_ Hls'].
  apply cleaner_done in Hclean as (Hall & Hs & Ha & Hc & Hr & Hci).
  assert (Forall (λ F, endswith F ".csv" = false) listing') as Hno.
  { apply Forall_forall. intros F HF.
    apply (file_loop_leaves_no_csv listing w w1 F Hls Hloop).
    rewrite <- Hs. apply elem_of_dom. rewrite <- Hls'.
    by apply elem_of_list_to_set. }
  rewrite script_run, file_loop_no_csv by done.
  assert (Forall (λ i, i ∈ tcols (staging w')) fields) as Hall'
    by by rewrite Hc.
  rewrite (cleaner_total w' Hall'). eexists. split; [done|].
  unfold cleaner.
  cleanup_facts fields w' as (Hs2 & Ha2 & Hc2 & Hr2 & Hh2 & _).
  rewrite runnable_all in Hr2 by done.
  rewrite cleaner_history_all in Hh2 by done.
  split_and!; [done..| |done].
  apply table_eq; [done| |apply clean_loop_collation].
  rewrite Hr2, Hr, Hci, <- list_fmap_compose.
  apply list_fmap_ext; intros _ r _. apply clean_row_idemp.
Qed.

Lemma X8_second_run_changes_nothing_witness :
  let w' := (script ["notes.txt"; "a.csv"] demo_world).1 in
  ∃ w'',
    script ["notes.txt"] w' = (w'', Done tt) ∧
    source w'' = source w' ∧
    archive w'' = archive w' ∧
    staging w'' = staging w' ∧
    history w'' = history w' ++ (fields ≫= cleaning_events).
Proof.
  apply (X8_second_run_changes_nothing
           ["notes.txt"; "a.csv"] ["notes.txt"] demo_world
           (script ["notes.txt"; "a.csv"] demo_world).1).
  - apply (bool_decide_unpack _). vm_compute. exact I.
  - vm_compute. reflexivity.
  - apply (bool_decide_unpack _). vm_compute. exact I.
Defined.

(** ** A failed move and the retry *)




(** ** When the script returns *)







(** ** What the file loop leaves, whatever the order of the listing *)

Lemma file_loop_done_dirs listing w w1 F :
  list_to_set listing = dom (source w) →
  file_loop listing w = (w1, Done tt) →
  source w1 !! F = (if endswith F ".csv" then None else source w !! F) ∧
  archived w1 F =
    (if endswith F ".csv"
     then match source w !! F with Some c => Some c | None => archived w F end
     else archived w F).
Proof.
  intros Hls Hrun. destruct (endswith F ".csv") eqn:Hcsv.
  - destruct (source w !! F) as [c|] eqn:Hsrc.
    + eapply file_loop_archives; [done| |done..].
      apply (elem_of_list_to_set (C := gset string)). rewrite Hls.
      apply elem_of_dom. by exists c.
    + destruct (file_loop_absent listing w F Hsrc) as [H1 H2].
      by rewrite Hrun in H1, H2.
  - destruct (file_loop_other_names listing w F Hcsv) as [H1 H2].
    by rewrite Hrun in H1, H2.
Qed.

Lemma file_loop_archive_none l w :
  archive w = None ↔ archive (file_loop l w).1 = None.
Proof.
  unfold file_loop.
  apply (for_each_rel (λ w w', archive w = None ↔ archive w' = None)).
  - by intros ?.
  - intros w1 w2 w3 H12 H23. by rewrite H12.
  - intros G w0 _. destruct (endswith G ".csv") eqn:Hcsv.
    + destruct (import_file_cases G w0 Hcsv)
        as [[-> _]|[(? & ? & _ & _ & Ha & ->)|(? & ? & ? & _ & _ & Ha & ->)]];
        simpl; rewrite ?Ha; done.
    + by rewrite import_file_other.
Qed.

Lemma rows_of_ext cols src src' F :
  src' !! F = src !! F → rows_of cols src' F = rows_of cols src F.
Proof. unfold rows_of. by intros ->. Qed.

(** The rows a loop that returns has appended: those of the listed ".csv"
    files, in the order of the listing. *)
Lemma file_loop_rows l w w1 :
  NoDup l →
  file_loop l w = (w1, Done tt) →
  trows (staging w1) =
    trows (staging w) ++ loaded_rows (tcols (staging w)) (source w) l.
Proof.
  unfold file_loop, loaded_rows. intros Hnd. revert w.
  induction Hnd as [|G l HG Hnd IH]; intros w Hrun.
  { injection Hrun as <-. simpl. by rewrite app_nil_r. }
  rewrite for_each_cons in Hrun. rewrite bind_cons.
  destruct (import_file G w) as [wG [[]|e]] eqn:HwG; [|done].
  rewrite (IH wG Hrun).
  destruct (import_file_appends G w) as [Hc _]. rewrite HwG in Hc.
  simpl in Hc. rewrite Hc.
  assert (l ≫= (λ F, if endswith F ".csv"
                     then rows_of (tcols (staging w)) (source wG) F else [])
          = l ≫= (λ F, if endswith F ".csv"
                     then rows_of (tcols (staging w)) (source w) F else []))
    as ->.
  { apply Forall_bind_ext, Forall_forall. intros F HF.
    destruct (endswith F ".csv"); [|done]. apply rows_of_ext.
    destruct (import_file_frame G w F) as [Hs _]; [by intros ->|].
    by rewrite HwG in Hs. }
  rewrite app_assoc. f_equal.
  destruct (endswith G ".csv") eqn:Hcsv.
  - destruct (import_file_cases G w Hcsv)
      as [[H _]|[(? & ? & _ & _ & _ & H)|(df & t & a & Hsrc & Hins & _ & H)]];
      rewrite H in HwG; simplify_eq/=.
    apply insert_frame_some in Hins as (_ & -> & _).
    unfold rows_of. by rewrite Hsrc.
  - rewrite import_file_other in HwG by done. simplify_eq.
    by rewrite app_nil_r.
Qed.

(** X11. The order in which the filesystem lists the directory matters only
    for the order of the appended rows. Two runs of the file loop from the
    same world that both return, on two listings of the directory, leave the
    same source directory, the same archive and the same table columns, and
    tables whose rows are the same up to order; each table is the old rows
    followed by the rows of the ".csv" files in the order of its listing. *)
Theorem X11_listing_order_only_orders_rows
    (l1 l2 : list string) (w w1 w2 : World) :
  os_listdir w l1 → os_listdir w l2 →
  file_loop l1 w = (w1, Done tt) →
  file_loop l2 w = (w2, Done tt) →
  source w1 = source w2 ∧
  archive w1 = archive w2 ∧
  tcols (staging w1) = tcols (staging w2) ∧
  trows (staging w1) =
    trows (staging w) ++ loaded_rows (tcols (staging w)) (source w) l1 ∧
  trows (staging w2) =
    trows (staging w) ++ loaded_rows (tcols (staging w)) (source w) l2 ∧
  trows (staging w1) ≡ₚ trows (staging w2).
Proof.
  intros [Hnd1 Hls1] [Hnd2 Hls2] Hrun1 Hrun2.
  assert (l1 ≡ₚ l2) as Hperm.
  { apply NoDup_Permutation; [done..|]. intros F.
    by rewrite <- !(elem_of_list_to_set (C := gset string)), Hls1, Hls2. }
  pose proof (file_loop_rows l1 w w1 Hnd1 Hrun1) as Hr1.
  pose proof (file_loop_rows l2 w w2 Hnd2 Hrun2) as Hr2.
  split_and!; [| | |done|done|].
  - apply map_eq; intros F.
    destruct (file_loop_done_dirs l1 w w1 F Hls1 Hrun1) as [-> _].
    by destruct (file_loop_done_dirs l2 w w2 F Hls2 Hrun2) as [-> _].
  - pose proof (file_loop_archive_none l1 w) as Hn1.
    pose proof (file_loop_archive_none l2 w) as Hn2.
    rewrite Hrun1 in Hn1. rewrite Hrun2 in Hn2. simpl in Hn1, Hn2.
    destruct (archive w1) as [a1|] eqn:Ha1, (archive w2) as [a2|] eqn:Ha2;
      [|naive_solver..].
    f_equal. apply map_eq; intros F.
    destruct (file_loop_done_dirs l1 w w1 F Hls1 Hrun1) as [_ H1].
    destruct (file_loop_done_dirs l2 w w2 F Hls2 Hrun2) as [_ H2].
    unfold archived in H1, H2. rewrite Ha1 in H1. rewrite Ha2 in H2.
    simpl in H1, H2. congruence.
  - destruct (file_loop_appends l1 w) as [Hc1 _].
    destruct (file_loop_appends l2 w) as [Hc2 _].
    rewrite Hrun1 in Hc1. rewrite Hrun2 in Hc2. simpl in *. congruence.
  - rewrite Hr1, Hr2. unfold loaded_rows. by rewrite Hperm.
Qed.

Lemma X11_listing_order_only_orders_rows_witness :
  let l1 := ["notes.txt"; "c.csv"; "a.csv"] in
  let l2 := ["a.csv"; "notes.txt"; "c.csv"] in
  let w1 := (file_loop l1 two_files_world).1 in
  let w2 := (file_loop l2 two_files_world).1 in
  source w1 = source w2 ∧
  archive w1 = archive w2 ∧
  tcols (staging w1) = tcols (staging w2) ∧
  trows (staging w1) =
    trows (staging two_files_world) ++
    loaded_rows (tcols (staging two_files_world)) (source two_files_world) l1 ∧
  trows (staging w2) =
    trows (staging two_files_world) ++
    loaded_rows (tcols (staging two_files_world)) (source two_files_world) l2 ∧
  trows (staging w1) ≡ₚ trows (staging w2).
Proof.
  intros l1 l2 w1 w2.
  apply (X11_listing_order_only_orders_rows l1 l2 two_files_world w1 w2).
  - apply (bool_decide_unpack _). vm_compute. exact I.
  - apply (bool_decide_unpack _). vm_compute. exact I.
  - vm_compute. reflexivity.
  - vm_compute. reflexivity.
Defined.

Example two_files_rows_in_listing_order :
  (λ r, r !! "Column_0")
    <$> trows (staging (file_loop ["c.csv"; "a.csv"] two_files_world).1)
  = [Some (Some "1"); Some NULL; Some (Some "7")]
  ∧ (λ r, r !! "Column_0")
    <$> trows (staging (file_loop ["a.csv"; "c.csv"] two_files_world).1)
  = [Some (Some "1"); Some (Some "7"); Some NULL].
Proof. split; vm_compute; reflexivity. Qed.

(** ** The log and the statements *)

Lemma cleaner_history_follows cols cs pre q post :
  cleaner_history cols cs = pre ++ Executed q :: post →
  ∃ pre' i,
    i ∈ cs ∧ q = sql1 i ∧
    pre = pre' ++ [Info ("Cleaning " +:+ i +:+ " column.")].
Proof.
  revert pre. induction cs as [|i cs IH]; intros pre; cbn [cleaner_history].
  { by destruct pre. }
  case_bool_decide.
  - unfold cleaning_events. destruct pre as [|e1 [|e2 pre]]; simpl.
    + done.
    + intros [= <- <- _]. exists [], i. split_and!; [by left|done..].
    + intros [= <- <- Hrest].
      destruct (IH _ Hrest) as (pre' & j & Hj & -> & ->).
      exists (Info ("Cleaning " +:+ i +:+ " column.")
              :: Executed (sql1 i) :: pre'), j.
      split_and!; [by right|done..].
  - destruct pre as [|e1 [|e2 pre]]; simpl; done.
Qed.

Lemma runnable_prefix cols cs : ∃ k, cs = runnable cols cs ++ k.
Proof.
  induction cs as [|i cs [k IH]]; simpl; [by exists []|].
  case_bool_decide; [|by eexists].
  exists k. simpl. by f_equal.
Qed.

Lemma executed_cleaner_history cols cs :
  executed (cleaner_history cols cs) = sql1 <$> runnable cols cs.
Proof.
  induction cs as [|i cs IH]; cbn [cleaner_history runnable]; [done|].
  case_bool_decide; [|done]. by rewrite fmap_cons, <- IH.
Qed.

Lemma executed_none h :
  Forall (λ e, is_cleanup_event e = false) h → executed h = [].
Proof.
  induction 1 as [|e h He _ IH]; [done|].
  destruct e; try done; exact IH.
Qed.

Lemma script_history listing w :
  ∃ h1 h2,
    history (script listing w).1 = history w ++ h1 ++ h2 ∧
    Forall (λ e, is_cleanup_event e = false) h1 ∧
    (h2 = [] ∨ ∃ cols, h2 = cleaner_history cols fields).
Proof.
  rewrite script_run.
  destruct (file_loop_has_trace listing w) as [_ (h & Hh & _ & _ & Hc)].
  destruct (file_loop listing w) as [w1 [[]|e]]; simpl in *.
  - unfold cleaner. cleanup_facts fields w1 as (_ & _ & _ & _ & Hh2 & _).
    exists h, (cleaner_history (tcols (staging w1)) fields).
    split_and!; [by rewrite Hh2, Hh, app_assoc|done|eauto].
  - exists h, []. rewrite app_nil_r. auto.
Qed.

(** X12. In the history any run of the script adds, every executed statement
    is the cleanup statement of one of the five fields and comes directly
    after the log line "Cleaning <field> column." of that field; and the
    statements executed are, in order, those of an initial part of [fields]:
    at most five, each field at most once, none out of turn. *)
Theorem X12_each_statement_follows_its_log_line
    (listing : list string) (w : World) :
  ∃ h,
    history (script listing w).1 = history w ++ h ∧
    statements_follow_log_lines h ∧
    executed h `prefix_of` (sql1 <$> fields).
Proof.
  destruct (script_history listing w) as (h1 & h2 & Hh & Hc & Hh2).
  exists (h1 ++ h2). split_and!; [done|..].
  - intros pre q post Heq.
    apply app_eq_app in Heq as [l [[-> Heq]|[-> Heq]]].
    + destruct l as [|e l]; simpl in Heq.
      * destruct Hh2 as [->|[cols ->]]; [done|].
        destruct (cleaner_history_follows cols fields [] q post)
          as (pre' & i & _ & _ & Hnil); [done|]. by destruct pre'.
      * injection Heq as <- _. rewrite Forall_forall in Hc.
        assert (is_cleanup_event (Executed q) = false); [|done].
        apply Hc. set_solver.
    + destruct Hh2 as [->|[cols ->]]; [by destruct l|].
      destruct (cleaner_history_follows _ _ _ _ _ Heq)
        as (pre' & i & Hi & -> & ->).
      exists (h1 ++ pre'), i. by rewrite app_assoc.
  - unfold executed. rewrite omap_app. fold (executed h1) (executed h2).
    rewrite (executed_none h1 Hc). simpl.
    destruct Hh2 as [->|[cols ->]]; [apply prefix_nil|].
    rewrite executed_cleaner_history.
    destruct (runnable_prefix cols fields) as [k Hk].
    exists (sql1 <$> k). by rewrite <- fmap_app, <- Hk.
Qed.

(** ** The shape of the stored rows *)

Lemma sql_row_dom cols labels (R : list cell) :
  dom (sql_row cols labels R) = list_to_set cols.
Proof.
  apply set_eq; intros c.
  rewrite elem_of_dom, sql_row_lookup, elem_of_list_to_set.
  case_bool_decide; [by split; [|eauto] | by split; [intros []|]].
Qed.

Lemma clean_row_dom ci cs (r : gmap string cell) :
  dom (clean_row ci cs r) = dom r.
Proof.
  apply set_eq; intros c. rewrite !elem_of_dom, clean_row_lookup.
  case_bool_decide; [|done]. by rewrite fmap_is_Some.
Qed.

Lemma import_file_well_formed G w :
  well_formed (staging w) → well_formed (staging (import_file G w).1).
Proof.
  unfold well_formed. intros Hwf.
  assert (∀ df t, insert_frame (rename_ids df) (staging w) = Some t →
            Forall (λ r : gmap string cell, dom r = list_to_set (tcols t))
                   (trows t)) as Hins.
  { intros df t (Hc & Hr & _)%insert_frame_some. rewrite Hc, Hr.
    apply Forall_app. split; [done|].
    apply Forall_fmap, Forall_true. intros R. apply sql_row_dom. }
  destruct (endswith G ".csv") eqn:Hcsv.
  - destruct (import_file_cases G w Hcsv)
      as [[-> _]|[(df & t & _ & Ht & _ & ->)|(df & t & a & _ & Ht & _ & ->)]];
      simpl; eauto.
  - by rewrite import_file_other.
Qed.

(** X13. The script never changes the columns of the staging table, and it
    keeps the rows in shape: if every stored row has a cell for each column
    of the table and for nothing else, the same holds for every row,
    old or appended, however the script ends. *)
Theorem X13_table_shape_is_kept (listing : list string) (w : World) :
  tcols (staging (script listing w).1) = tcols (staging w) ∧
  (well_formed (staging w) → well_formed (staging (script listing w).1)).
Proof.
  assert (well_formed (staging w) →
          well_formed (staging (file_loop listing w).1)) as Hloop.
  { unfold file_loop.
    apply (for_each_rel
             (λ w w', well_formed (staging w) → well_formed (staging w'))).
    - by intros ?.
    - intros w1 w2 w3 H12 H23 ?. auto.
    - intros G w0 _. apply import_file_well_formed. }
  destruct (file_loop_appends listing w) as [Hc _].
  rewrite script_run.
  destruct (file_loop listing w) as [w1 [[]|e]]; simpl in *; [|done].
  unfold cleaner. cleanup_facts fields w1 as (_ & _ & Hc' & Hr & _ & _).
  split; [congruence|]. intros Hwf%Hloop. unfold well_formed in *.
  rewrite Hc', Hr. apply Forall_fmap. eapply Forall_impl; [exact Hwf|].
  intros r Hr'. simpl. by rewrite clean_row_dom.
Qed.

Lemma X13_table_shape_is_kept_witness :
  tcols (staging (script ["a.csv"] stocked_world).1) =
    tcols (staging stocked_world) ∧
  well_formed (staging (script ["a.csv"] stocked_world).1).
Proof.
  destruct (X13_table_shape_is_kept ["a.csv"] stocked_world) as [Hc Hwf].
  split; [exact Hc|]. apply Hwf.
  apply (bool_decide_unpack _). vm_compute. exact I.
Defined.

(** ** What a run that returned says about its input *)





Lemma X1_filter_accepts_exactly_csv_names_witness :
  import_file "notes.txt" demo_world = (demo_world, Done tt) ∧
  import_file "gone.csv" demo_world = (demo_world, Raised LoadError).
Proof.
  split.
  - destruct (X1_filter_accepts_exactly_csv_names "notes.txt")
      as (Hiff & Hskip & _).
    apply Hskip. intros Hp%Hiff. vm_compute in Hp. discriminate.
  - destruct (X1_filter_accepts_exactly_csv_names "gone.csv")
      as (Hiff & _ & Hmiss).
    apply Hmiss; [apply Hiff|]; vm_compute; reflexivity.
Defined.
